(** * Verification of the CMake driver core

    Shallow embedding of three pieces of the extension:
    - [Proc]: the line buffering of [execute] (src/proc.ts);
    - [Cache]: [CMakeCache.fromPath] and [CMakeCache.parseCache] (src/cache.ts);
    - [Legacy]: [TargetListParser] and [LegacyCMakeDriver] (src/legacy-driver.ts).

    JavaScript strings are modelled by [string]: sequences of code units
    below 256.  Asynchronous functions are modelled by their sequential
    meaning (every [await] is a plain call); the answers of the outside
    world (file system, child process, base-class hooks) are explicit
    arguments of the operations. *)

From Stdlib Require Import Ascii String ZArith Lia Bool DecimalString.
From stdpp Require Import base option list gmap strings.

Local Open Scope Z_scope.

(** ** JavaScript string methods used by the sources *)

Module Js.

Definition LF : ascii := "010"%char.
Definition CR : ascii := "013"%char.

(** [s.length] *)
Definition len (s : string) : Z := Z.of_nat (String.length s).

(** [s.startsWith(p)] *)
Definition startsWith (s p : string) : bool := String.prefix p s.

(** [s.substr(start, length)]; [None] stands for an omitted length. *)
Definition substr (s : string) (start : Z) (length : option Z) : string :=
  let size := len s in
  let intStart := if start <? 0 then Z.max (size + start) 0 else Z.min start size in
  let intLength := default size length in
  let intEnd := Z.min (intStart + Z.max intLength 0) size in
  String.substring (Z.to_nat intStart) (Z.to_nat (intEnd - intStart)) s.

(** [s.endsWith(p)] *)
Definition endsWith (s p : string) : bool :=
  let start := len s - len p in
  if start <? 0 then false
  else String.eqb (String.substring (Z.to_nat start) (String.length p) s) p.

(** [s.includes(p)] *)
Fixpoint includes (s p : string) : bool :=
  String.prefix p s ||
  match s with
  | EmptyString => false
  | String _ s' => includes s' p
  end.

(** [s.indexOf(p)]: the first position at which [p] occurs, or [-1]. *)
Fixpoint indexOf (s p : string) : Z :=
  if String.prefix p s then 0
  else match s with
       | EmptyString => -1
       | String _ s' =>
           let i := indexOf s' p in
           if i <? 0 then -1 else i + 1
       end.

(** [s.split(c)] for a separator of one character: never empty. *)
Fixpoint split (sep : ascii) (s : string) : list string :=
  match s with
  | EmptyString => [EmptyString]
  | String c s' =>
      if Ascii.eqb c sep then EmptyString :: split sep s'
      else match split sep s' with
           | h :: t => String c h :: t
           | [] => [String c EmptyString]
           end
  end.

(** White space and line terminators ([\s], [trim]) below 256. *)
Definition isSpace (c : ascii) : bool :=
  let n := N.of_nat (nat_of_ascii c) in
  ((9 <=? n) && (n <=? 13) || (n =? 32) || (n =? 160))%N.

(** Line terminators below 256: what [.] of a regular expression refuses. *)
Definition isLineTerminator (c : ascii) : bool :=
  Ascii.eqb c LF || Ascii.eqb c CR.

Fixpoint trimStart (s : string) : string :=
  match s with
  | String c s' => if isSpace c then trimStart s' else s
  | EmptyString => EmptyString
  end.

Fixpoint trimEnd (s : string) : string :=
  match s with
  | EmptyString => EmptyString
  | String c s' =>
      match trimEnd s' with
      | EmptyString => if isSpace c then EmptyString else String c EmptyString
      | t => String c t
      end
  end.

(** [s.trim()] *)
Definition trim (s : string) : string := trimEnd (trimStart s).

(** Truthiness of a string: only the empty string is falsy. *)
Definition truthy (s : string) : bool :=
  match s with EmptyString => false | _ => true end.

(** [a || b] on an optional string field: [undefined] and [""] are falsy. *)
Definition orString (a : option string) (b : string) : string :=
  match a with
  | Some s => if truthy s then s else b
  | None => b
  end.

(** [a || b] where a present [a] is an object or a non-empty literal. *)
Definition orObject {A} (a : option A) (b : A) : A := default b a.

End Js.

(** A settled promise: the value it resolved with, or the error it was
    rejected with (an exception thrown in an [async] function rejects it). *)
Inductive Settled (A : Type) :=
| Resolved (a : A)
| Rejected (err : string).
Arguments Resolved {A} a.
Arguments Rejected {A} err.

(** ** src/proc.ts *)

Module Proc.

Record ExecutionResult := {
  retc : Z;
  stdout : string;
  stderr : string;
}.

(** [interface OutputConsumer]; the consumer is a mutable object, so each
    method maps the consumer before the call to the consumer after it. *)
Class OutputConsumer (C : Type) := {
  output : string -> C -> C;
  error : string -> C -> C;
}.

(** A consumer that records the calls it receives, in order. *)
Inductive Call :=
| Output (line : string)
| Error (line : string).

#[export] Instance recorder : OutputConsumer (list Call) := {
  output line calls := calls ++ [Output line];
  error line calls := calls ++ [Error line];
}.

(** [l => l.endsWith('\r') ? l.substr(0, l.length - 1) : l] *)
Definition stripCR (l : string) : string :=
  if Js.endsWith l (String Js.CR EmptyString)
  then Js.substr l 0 (Some (Js.len l - 1))
  else l.

(** The local variables of the promise body of [execute]. *)
Record ExecState (C : Type) := {
  stdout_acc : string;
  line_acc : string;
  stderr_acc : string;
  stderr_line_acc : string;
  outputConsumer : option C;
}.
Arguments stdout_acc {C}.
Arguments line_acc {C}.
Arguments stderr_acc {C}.
Arguments stderr_line_acc {C}.
Arguments outputConsumer {C}.

Definition start {C} (outputConsumer : option C) : ExecState C :=
  {| stdout_acc := ""; line_acc := ""; stderr_acc := ""; stderr_line_acc := "";
     outputConsumer := outputConsumer |}.

Section Handlers.
Context {C : Type} `{OutputConsumer C}.

(** [while (lines.length > 1) { acc += lines[0]; if (consumer) emit(acc);
    acc = ''; lines.splice(0, 1); }], for either stream. *)
Fixpoint drain (emit : string -> C -> C) (lines : list string) (acc : string)
    (oc : option C) : list string * string * option C :=
  match lines with
  | l :: (_ :: _) as rest => drain emit rest "" (emit (acc +:+ l) <$> oc)
  | _ => (lines, acc, oc)
  end.

(** [acc += lines[0]]; of an empty array (which [split] never returns)
    JavaScript would append the text of [undefined]. *)
Definition appendFirst (acc : string) (lines : list string) : string :=
  match lines with
  | l :: _ => acc +:+ l
  | [] => acc +:+ "undefined"
  end.

(** [child.stdout.on('data', ...)], on the decoded text of a chunk. *)
Definition on_stdout_data (str : string) (st : ExecState C) : ExecState C :=
  let lines := stripCR <$> Js.split Js.LF str in
  let '(lines, acc, oc) := drain output lines (line_acc st) (outputConsumer st) in
  {| stdout_acc := stdout_acc st +:+ str;
     line_acc := appendFirst acc lines;
     stderr_acc := stderr_acc st;
     stderr_line_acc := stderr_line_acc st;
     outputConsumer := oc |}.

(** [child.stderr.on('data', ...)] *)
Definition on_stderr_data (str : string) (st : ExecState C) : ExecState C :=
  let lines := stripCR <$> Js.split Js.LF str in
  let '(lines, acc, oc) := drain error lines (stderr_line_acc st) (outputConsumer st) in
  {| stdout_acc := stdout_acc st;
     line_acc := line_acc st;
     stderr_acc := stderr_acc st +:+ str;
     stderr_line_acc := appendFirst acc lines;
     outputConsumer := oc |}.

(** [child.on('close', ...)]: the value resolved and the consumer then. *)
Definition on_close (code : Z) (st : ExecState C) : ExecutionResult * option C :=
  let oc := if Js.truthy (line_acc st)
            then output (line_acc st) <$> outputConsumer st
            else outputConsumer st in
  let oc := if Js.truthy (stderr_line_acc st)
            then error (stderr_line_acc st) <$> oc
            else oc in
  ({| retc := code; stdout := stdout_acc st; stderr := stderr_acc st |}, oc).

(** A run of stdout chunks delivered one after the other. *)
Definition feed_stdout (chunks : list string) (st : ExecState C) : ExecState C :=
  foldl (fun st str => on_stdout_data str st) st chunks.

End Handlers.

(** What the operating system makes of a spawned child: it fails to start
    ([child.on('error')]), or it delivers data events and closes. *)
Inductive ChildEvent :=
| StdoutData (str : string)
| StderrData (str : string).

Inductive Child :=
| SpawnError (err : string)
| Runs (events : list ChildEvent) (code : Z).

(** [interface Subprocess], without the handle of the child. *)
Record Subprocess := {
  result : Settled ExecutionResult;
}.

(** [execute(command, args, outputConsumer)] against a given child: the
    settled [result] and the consumer after the last call made to it. *)
Definition execute {C} `{OutputConsumer C} (child : Child) (outputConsumer : option C)
    : Settled ExecutionResult * option C :=
  match child with
  | SpawnError err => (Rejected err, outputConsumer)
  | Runs events code =>
      let st := foldl (fun st ev =>
                         match ev with
                         | StdoutData str => on_stdout_data str st
                         | StderrData str => on_stderr_data str st
                         end) (start outputConsumer) events in
      let '(res, oc) := on_close code st in
      (Resolved res, oc)
  end.

(** The [output] calls a recording consumer has received after the chunks. *)
Definition outputs_of (chunks : list string) : option (list Call) :=
  outputConsumer (feed_stdout chunks (start (Some []))).

End Proc.

(** ** src/cache.ts *)

(** [api.CacheEntryType] *)
Module Api.
Inductive CacheEntryType :=
| Bool | String | Path | FilePath | Internal | Uninitialized | Static.
End Api.

Module Cache.

(** What [typemap[typename]] evaluates to when it is not [undefined]: a
    member of the enumeration, or, since [typemap] is an object literal, a
    member of [Object.prototype] reached through the prototype chain. *)
Inductive TypemapValue :=
| EntryType (t : Api.CacheEntryType)
| Inherited (property : string).

(** The own properties of the [typemap] literal. *)
Definition typemap_own : list (string * Api.CacheEntryType) :=
  [ ("BOOL", Api.Bool); ("STRING", Api.String); ("PATH", Api.Path);
    ("FILEPATH", Api.FilePath); ("INTERNAL", Api.Internal);
    ("UNINITIALIZED", Api.Uninitialized); ("STATIC", Api.Static) ].

(** The property names of [Object.prototype]. *)
Definition objectPrototype : list string :=
  [ "constructor"; "__defineGetter__"; "__defineSetter__"; "hasOwnProperty";
    "__lookupGetter__"; "__lookupSetter__"; "isPrototypeOf";
    "propertyIsEnumerable"; "toString"; "valueOf"; "__proto__";
    "toLocaleString" ].

Fixpoint own_property {A} (o : list (string * A)) (k : string) : option A :=
  match o with
  | [] => None
  | (k', v) :: o' => if String.eqb k' k then Some v else own_property o' k
  end.

(** [typemap[typename]]; [None] is [undefined]. *)
Definition typemap (typename : string) : option TypemapValue :=
  match own_property typemap_own typename with
  | Some t => Some (EntryType t)
  | None =>
      if existsb (String.eqb typename) objectPrototype
      then Some (Inherited typename) else None
  end.

(** [Entry._value]: a boolean for [BOOL] entries, the raw text otherwise. *)
Inductive Value :=
| VBool (b : bool)
| VString (s : string).

Record Entry := {
  _type : TypemapValue;
  _docs : string;
  _key : string;
  _value : Value;
  _advanced : bool;
}.

(** One call of [rollbar.error(message, extra)]. *)
Record RollbarError := {
  message : string;
  extra : option string;
}.

(** The loop variables of [parseCache] and the reports made so far. *)
Record ParseState := {
  entries : gmap string Entry;
  docs_acc : string;
  errors : list RollbarError;
}.

Definition parse_start : ParseState :=
  {| entries := ∅; docs_acc := ""; errors := [] |}.

(** [content.split] on the pattern CR LF, or LF, or CR. *)
Fixpoint splitLines (s : string) : list string :=
  match s with
  | EmptyString => [EmptyString]
  | String c s' =>
      if Ascii.eqb c Js.CR then
        EmptyString :: match s' with
                       | String c' s'' =>
                           if Ascii.eqb c' Js.LF then splitLines s'' else splitLines s'
                       | EmptyString => splitLines s'
                       end
      else if Ascii.eqb c Js.LF then EmptyString :: splitLines s'
      else match splitLines s' with
           | h :: t => String c h :: t
           | [] => [String c EmptyString]
           end
  end.

(** The test of the pattern "optional white space, then a hash sign" at
    the start of [line]. *)
Fixpoint isHashComment (line : string) : bool :=
  match line with
  | EmptyString => false
  | String c s' =>
      if Ascii.eqb c "#" then true
      else if Js.isSpace c then isHashComment s' else false
  end.

(** A greedy dot-star group at the start of [s]: the longest run without a
    line terminator. *)
Fixpoint dotStar (s : string) : string :=
  match s with
  | EmptyString => EmptyString
  | String c s' => if Js.isLineTerminator c then EmptyString else String c (dotStar s')
  end.

(** The tail of the entry pattern at the start of [s]: a lazy dot-star
    group, an equals sign, a greedy dot-star group. *)
Fixpoint execTypeValue (s : string) : option (string * string) :=
  match s with
  | EmptyString => None
  | String c s' =>
      if Ascii.eqb c "=" then Some (EmptyString, dotStar s')
      else if Js.isLineTerminator c then None
      else match execTypeValue s' with
           | Some (t, v) => Some (String c t, v)
           | None => None
           end
  end.

(** [exec] of the entry pattern (lazy group, colon, lazy group, equals
    sign, greedy group, anchored at the start) on [line]: the three groups,
    or [None] for [null].  The lazy first group stops at the first colon
    after which the rest of the pattern matches. *)
Fixpoint execEntry (s : string) : option (string * string * string) :=
  match s with
  | EmptyString => None
  | String c s' =>
      let longer :=
        if Js.isLineTerminator c then None
        else match execEntry s' with
             | Some (n, t, v) => Some (String c n, t, v)
             | None => None
             end in
      if Ascii.eqb c ":" then
        match execTypeValue s' with
        | Some (t, v) => Some (EmptyString, t, v)
        | None => longer
        end
      else longer
  end.

Section Parse.
(** [util.isTruthy] on strings (src/util.ts is not among the sources). *)
Variable isTruthy : string -> bool.

(** [new Entry(key, value, type, docs, advanced)] *)
Definition new_Entry (key value : string) (type : TypemapValue) (docs : string)
    (advanced : bool) : Entry :=
  {| _key := key;
     _type := type;
     _value := match type with
               | EntryType Api.Bool => VBool (isTruthy value)
               | _ => VString value
               end;
     _docs := docs;
     _advanced := advanced |}.

(** The body of [for (const line of lines)]. *)
Definition parseLine (st : ParseState) (line : string) : ParseState :=
  if Js.startsWith line "//" then
    {| entries := entries st;
       docs_acc := docs_acc st +:+ dotStar (Js.substr line 2 None) +:+ " ";
       errors := errors st |}
  else
    match execEntry line with
    | None =>
        {| entries := entries st;
           docs_acc := docs_acc st;
           errors := errors st ++
             [ {| message := "Failed to read a line from a CMake cache file";
                  extra := Some line |} ] |}
    | Some (name, typename, valuestr) =>
        if negb (Js.truthy name) || negb (Js.truthy typename) then st
        else if Js.endsWith name "-ADVANCED" && String.eqb valuestr "1" then st
        else
          let docs := Js.trim (docs_acc st) in
          match typemap typename with
          | None =>
              {| entries := entries st;
                 docs_acc := "";
                 errors := errors st ++
                   [ {| message := "Cache entry '" +:+ name +:+ "' has unknown type: '"
                                   +:+ typename +:+ "'";
                        extra := None |} ] |}
          | Some type =>
              {| entries := <[name := new_Entry name valuestr type docs false]> (entries st);
                 docs_acc := "";
                 errors := errors st |}
          end
    end.

(** The lines the loop runs over. *)
Definition cacheLines (content : string) : list string :=
  filter (fun line => negb (isHashComment line) = true)
    (filter (fun line => negb (Js.len line =? 0) = true) (splitLines content)).

(** [parseCache(content)] together with the reports it makes. *)
Definition parseCacheRun (content : string) : ParseState :=
  foldl parseLine parse_start (cacheLines content).

Definition parseCache (content : string) : gmap string Entry :=
  entries (parseCacheRun content).

(** [class CMakeCache] *)
Record CMakeCache := {
  _path : string;
  _exists : bool;
  _entries : gmap string Entry;
}.

(** The answers of [fs] ('./pr'). *)
Record FileSystem := {
  fs_exists : string -> bool;
  fs_readFile : string -> Settled string;
}.

(** [CMakeCache.fromPath(path)] *)
Definition fromPath (fs : FileSystem) (path : string) : Settled CMakeCache :=
  let exists_ := fs_exists fs path in
  if exists_ then
    match fs_readFile fs path with
    | Rejected err => Rejected err
    | Resolved content =>
        Resolved {| _path := path; _exists := exists_; _entries := parseCache content |}
    end
  else Resolved {| _path := path; _exists := exists_; _entries := ∅ |}.

(** [getReloaded()] *)
Definition getReloaded (fs : FileSystem) (c : CMakeCache) : Settled CMakeCache :=
  fromPath fs (_path c).

(** [get(key)] *)
Definition get (c : CMakeCache) (key : string) : option Entry := _entries c !! key.

End Parse.

End Cache.

(** ** src/legacy-driver.ts *)

(** [Kit] ('./kit'): the fields the driver reads.  [compilers] lists the
    pairs of [util.objectPairs(kit.compilers)], language first. *)
Module Kit.
Record t := {
  name : string;
  type : string;
  compilers : list (string * string);
}.
End Kit.

(** [api.NamedTarget] *)
Module NamedTarget.
Record t := {
  type : string;
  name : string;
}.
End NamedTarget.

(** [ConfigureArguments] and [VariantConfigurationOptions] ('./variant');
    a field that may be left out is an [option]. *)
Module Variant.
Inductive Linkage := static | shared.

Record ConfigureArguments (Value : Type) := {
  key : string;
  value : Value;
}.
Arguments key {Value}.
Arguments value {Value}.

Record VariantConfigurationOptions (Value : Type) := {
  description : string;
  buildType : option string;
  settings : option (list (ConfigureArguments Value));
  linkage : option Linkage;
}.
Arguments description {Value}.
Arguments buildType {Value}.
Arguments settings {Value}.
Arguments linkage {Value}.
End Variant.

(** The result of [util.cmakeify]. *)
Module CMakeValue.
Record t := {
  type : string;
  value : string;
}.
End CMakeValue.

Module Legacy.
Import Proc.

(** *** [class TargetListParser] *)

Record TargetListParser := {
  _targetNames : list string;
  generator : string;
}.

Definition new_TargetListParser (generator : string) : TargetListParser :=
  {| _targetNames := []; generator := generator |}.

Definition targetNames (p : TargetListParser) : list string := _targetNames p.

Definition push_targetName (target_name : string) (p : TargetListParser)
    : TargetListParser :=
  {| _targetNames := _targetNames p ++ [target_name]; generator := generator p |}.

(** [TargetListParser.output(line)] *)
Definition TargetListParser_output (line : string) (p : TargetListParser)
    : TargetListParser :=
  if Js.endsWith (generator p) "Makefiles" then
    if negb (Js.startsWith line "...") then p
    else
      let target_name := Js.substr line 4 None in
      let target_name :=
        if Js.includes target_name " "
        then Js.substr target_name 0 (Some (Js.indexOf target_name " "))
        else target_name in
      push_targetName target_name p
  else
    let colpos := Js.indexOf line ": " in
    if (colpos =? -1) || Js.includes line "All primary targets" then p
    else push_targetName (Js.substr line 0 (Some colpos)) p.

#[export] Instance TargetListParser_consumer : OutputConsumer TargetListParser := {
  output := TargetListParser_output;
  error := TargetListParser_output;
}.

(** The parser after a sequence of [output] calls. *)
Definition parse_targets (generator : string) (lines : list string) : list string :=
  targetNames (foldl (fun p line => output line p) (new_TargetListParser generator) lines).

(** *** [class LegacyCMakeDriver] *)

Section Driver.
(** The type of a setting's value, [util.cmakeify] and [util.normalizePath]
    (src/variant.ts and src/util.ts are not among the sources). *)
Context {Value : Type}.
Variable cmakeify : Value -> CMakeValue.t.
Variable normalizePath : string -> string.
(** The type of the caller's output consumer. *)
Context {C : Type} `{OutputConsumer C}.

(** The fields of the driver; [_kit] is inherited from [CMakeDriver]. *)
Record LegacyCMakeDriver := {
  _kit : option Kit.t;
  _needsReconfigure : bool;
  _buildType : string;
  _configArgs : list (Variant.ConfigureArguments Value);
  _linkage : Variant.Linkage;
  _targets : list NamedTarget.t;
}.

(** The field initialisers of the class. *)
Definition new_LegacyCMakeDriver : LegacyCMakeDriver :=
  {| _kit := None;
     _needsReconfigure := true;
     _buildType := "Debug";
     _configArgs := [];
     _linkage := Variant.static;
     _targets := [] |}.

Definition needsReconfigure (d : LegacyCMakeDriver) : bool := _needsReconfigure d.
Definition targets (d : LegacyCMakeDriver) : list NamedTarget.t := _targets d.

(** One process started through [executeCommand]. *)
Record Invocation := {
  command : string;
  args : list string;
}.

(** What the outside world answers during one operation of the driver:
    the getters and hooks of the base class, [config], [fs], and the
    behaviour of the processes that are started. *)
Record World := {
  (* getters of the base class; [None] is [null] *)
  binaryDir : string;
  sourceDir : string;
  cachePath : string;
  generatorName : option string;
  (* [config.cmakePath], [config.numJobs] *)
  cmakePath : string;
  numJobs : Z;
  (* hooks of the base class: the result of the call *)
  super_init : Settled (option Kit.t);
  _kitChangeNeedsClean : bool;
  _beforeConfigure : bool;
  _cmakeFlags : list string;
  _reloadCMakeCache : Settled unit;
  (* [fs.rmdir(this.binaryDir)] in [setKit] *)
  rmdir_binaryDir : Settled unit;
  (* [fs.exists(this.cachePath)] in [configure] and [_init] *)
  exists_cachePath : bool;
  (* the calls of [fs] in [cleanConfigure], in their order *)
  clean_exists_cache : bool;
  clean_unlink_cache : Settled unit;
  clean_exists_cmake_files : bool;
  clean_rmdir_cmake_files : Settled unit;
  (* the process of [configure] or [build], and the one that lists targets *)
  tool : Child;
  help : Child;
}.

(** The objects an operation works on: the driver, the consumer the caller
    passed, and the processes started so far. *)
Record Heap := {
  this : LegacyCMakeDriver;
  consumer : option C;
  spawned : list Invocation;
}.

(** Operations thread the heap and may reject. *)
Definition M (A : Type) : Type := Heap -> Settled A * Heap.

Definition ret {A} (a : A) : M A := fun h => (Resolved a, h).

Definition bind {A B} (m : M A) (k : A -> M B) : M B :=
  fun h => match m h with
           | (Resolved a, h') => k a h'
           | (Rejected err, h') => (Rejected err, h')
           end.

Definition await {A} (p : Settled A) : M A := fun h => (p, h).

Definition throw {A} (err : string) : M A := fun h => (Rejected err, h).

Definition read : M LegacyCMakeDriver := fun h => (Resolved (this h), h).

Definition update (f : LegacyCMakeDriver -> LegacyCMakeDriver) : M unit :=
  fun h => (Resolved tt,
            {| this := f (this h); consumer := consumer h; spawned := spawned h |}).

Definition read_consumer : M (option C) := fun h => (Resolved (consumer h), h).

Definition write_consumer (oc : option C) : M unit :=
  fun h => (Resolved tt, {| this := this h; consumer := oc; spawned := spawned h |}).

Definition log_spawn (inv : Invocation) : M unit :=
  fun h => (Resolved tt,
            {| this := this h; consumer := consumer h; spawned := spawned h ++ [inv] |}).

#[local] Instance M_ret : MRet M := @ret.
#[local] Instance M_bind : MBind M := fun A B k m => bind m k.

Definition set_kit (k : option Kit.t) (d : LegacyCMakeDriver) : LegacyCMakeDriver :=
  {| _kit := k; _needsReconfigure := _needsReconfigure d; _buildType := _buildType d;
     _configArgs := _configArgs d; _linkage := _linkage d; _targets := _targets d |}.

Definition set_needsReconfigure (b : bool) (d : LegacyCMakeDriver) : LegacyCMakeDriver :=
  {| _kit := _kit d; _needsReconfigure := b; _buildType := _buildType d;
     _configArgs := _configArgs d; _linkage := _linkage d; _targets := _targets d |}.

Definition set_targets (ts : list NamedTarget.t) (d : LegacyCMakeDriver)
    : LegacyCMakeDriver :=
  {| _kit := _kit d; _needsReconfigure := _needsReconfigure d; _buildType := _buildType d;
     _configArgs := _configArgs d; _linkage := _linkage d; _targets := ts |}.

(** Modelled from the spec: [executeCommand] of the base class (src/driver.ts
    is not among the sources), which invokes the process runner with the
    command and the arguments it is given.  The consumer is returned as the
    process leaves it. *)
Definition executeCommand {C' : Type} `{OutputConsumer C'} (command : string)
    (args : list string) (oc : option C') (child : Child) : M (Subprocess * option C') :=
  log_spawn {| command := command; args := args |} ;;
  let '(r, oc') := execute child oc in
  ret ({| result := r |}, oc').

(** [executeCommand] with the consumer of the caller. *)
Definition executeCommand_consumer (command : string) (args : list string)
    (child : Child) : M Subprocess :=
  oc ← read_consumer;
  r ← executeCommand command args oc child;
  write_consumer (snd r) ;;
  ret (fst r).

(** Modelled from the spec: [_setBaseKit] of the base class, which adopts
    the kit. *)
Definition _setBaseKit (kit : Kit.t) : M unit := update (set_kit (Some kit)).

(** [setKit(kit)] *)
Definition setKit (kit : Kit.t) (w : World) : M unit :=
  update (set_needsReconfigure true) ;;
  let need_clean := _kitChangeNeedsClean w in
  (if need_clean then await (rmdir_binaryDir w) else ret tt) ;;
  _setBaseKit kit.

(** [setVariantOptions(opts)] *)
Definition setVariantOptions (opts : Variant.VariantConfigurationOptions Value) : M unit :=
  update (fun d =>
    {| _kit := _kit d;
       _needsReconfigure := _needsReconfigure d;
       _buildType := Js.orString (Variant.buildType opts) (_buildType d);
       _configArgs := Js.orObject (Variant.settings opts) (_configArgs d);
       _linkage := Js.orObject (Variant.linkage opts) (_linkage d);
       _targets := _targets d |}).

(** [asyncDispose()] *)
Definition asyncDispose : M unit := ret tt.

(** [_refreshTargets()].  When the generator name is [null] the parser is
    built around [null] and its first call throws; the exception is
    modelled as the rejection of the operation. *)
Definition _refreshTargets (w : World) : M unit :=
  d ← read;
  let args := ["--build"; binaryDir w; "--config"; _buildType d; "--target"; "help"] in
  match generatorName w with
  | Some g =>
      r ← executeCommand (cmakePath w) args (Some (new_TargetListParser g)) (help w);
      await (result (fst r)) ;;
      let names := from_option targetNames [] (snd r) in
      update (set_targets
                ((fun t => {| NamedTarget.type := "named"; NamedTarget.name := t |}) <$> names))
  | None =>
      r ← executeCommand (cmakePath w) args (Some ([] : list Call)) (help w);
      match snd r with
      | Some (_ :: _) => throw "TypeError: Cannot read property 'endsWith' of null"
      | _ => await (result (fst r)) ;; update (set_targets [])
      end
  end.

(** The setting arguments of [configure]. *)
Definition settingArgs (d : LegacyCMakeDriver) : list string :=
  (fun setting =>
     let cmake_value := cmakeify (Variant.value setting) in
     Variant.key setting +:+ ":" +:+ CMakeValue.type cmake_value +:+ "="
       +:+ CMakeValue.value cmake_value) <$> _configArgs d.

(** The compiler arguments of [configure] for the kit. *)
Definition kitArgs (kit : Kit.t) : list string :=
  if String.eqb (Kit.type kit) "compilerKit"
  then (fun lc => "-DCMAKE_" +:+ fst lc +:+ "_COMPILER:FILEPATH=" +:+ snd lc)
         <$> Kit.compilers kit
  else [].

(** [configure(outputConsumer)], the consumer being the one of the heap. *)
Definition configure (w : World) : M Z :=
  if negb (_beforeConfigure w) then ret (-1)
  else
    let args := [] in
    let args := if negb (exists_cachePath w) then args ++ ["-G" +:+ "Ninja"] else args in
    d ← read;
    let args := args ++ settingArgs d in
    let args := args ++ ["-DCMAKE_BUILD_TYPE:STRING=" +:+ _buildType d] in
    match _kit d with
    | None => throw "No kit is set!"
    | Some kit =>
        let args := args ++ kitArgs kit in
        let cmake_settings := _cmakeFlags w in
        let args := args ++ cmake_settings in
        let args := args ++ ["-H" +:+ normalizePath (sourceDir w)] in
        let bindir := normalizePath (binaryDir w) in
        let args := args ++ ["-B" +:+ bindir] in
        sub ← executeCommand_consumer (cmakePath w) args (tool w);
        res ← await (result sub);
        (if retc res =? 0 then update (set_needsReconfigure false) else ret tt) ;;
        await (_reloadCMakeCache w) ;;
        _refreshTargets w ;;
        ret (retc res)
    end.

(** [cleanConfigure(consumer)]; the answers of [fs] about the cache file and
    the directory of generated files come from the world. *)
Definition cleanConfigure (w : World) : M Z :=
  (if clean_exists_cache w then await (clean_unlink_cache w) else ret tt) ;;
  (if clean_exists_cmake_files w then await (clean_rmdir_cmake_files w) else ret tt) ;;
  configure w.

(** The test of the pattern "Unix Makefiles, or MinGW Makefiles, or Ninja"
    anywhere in [gen]. *)
Definition testMakefilesNinja (gen : string) : bool :=
  Js.includes gen "Unix Makefiles" || Js.includes gen "MinGW Makefiles"
  || Js.includes gen "Ninja".

(** [n.toString()] of an integer. *)
Definition toString (n : Z) : string := NilZero.string_of_int (Z.to_int n).

(** [generator_args] of [build]. *)
Definition generator_args (gen : option string) (target : string) (numJobs : Z)
    : list string :=
  match gen with
  | None => []
  | Some gen =>
      if negb (Js.truthy gen) then []
      else if testMakefilesNinja gen && negb (String.eqb target "clean")
      then ["-j"; toString numJobs]
      else if Js.includes gen "Visual Studio"
      then ["/m"; "/property:GenerateFullPaths=true"]
      else []
  end.

(** [build(target, consumer)] *)
Definition build (target : string) (w : World) : M (option Subprocess) :=
  let ok := _beforeConfigure w in
  if negb ok then ret None
  else
    let gen := generatorName w in
    let generator_args := generator_args gen target (numJobs w) in
    d ← read;
    let args :=
      ["--build"; binaryDir w; "--config"; _buildType d; "--target"; target; "--"]
        ++ generator_args in
    res ← executeCommand_consumer (cmakePath w) args (tool w);
    await (result res) ;;
    await (_reloadCMakeCache w) ;;
    _refreshTargets w ;;
    ret (Some res).

(** [_init()]; of [super._init()], which is not among the sources, the
    world tells whether it resolves and the kit it leaves in [_kit]. *)
Definition _init (w : World) : M unit :=
  k ← await (super_init w);
  update (set_kit k) ;;
  if exists_cachePath w then _refreshTargets w else ret tt.

(** [LegacyCMakeDriver.create()]: the promise of the instance, and the heap. *)
Definition create (w : World) : Settled LegacyCMakeDriver * Heap :=
  let '(r, h) :=
    _init w {| this := new_LegacyCMakeDriver; consumer := None; spawned := [] |} in
  (match r with Resolved _ => Resolved (this h) | Rejected err => Rejected err end, h).

(** The public operations, for sequences of calls. *)
Inductive Op :=
| SetKit (kit : Kit.t)
| SetVariantOptions (opts : Variant.VariantConfigurationOptions Value)
| AsyncDispose
| Configure
| CleanConfigure
| Build (target : string).

(** The exit code an operation returned, if it is one that returns one. *)
Definition perform (op : Op) (w : World) : M (option Z) :=
  match op with
  | SetKit kit => setKit kit w ;; ret None
  | SetVariantOptions opts => setVariantOptions opts ;; ret None
  | AsyncDispose => asyncDispose ;; ret None
  | Configure => c ← configure w; ret (Some c)
  | CleanConfigure => c ← cleanConfigure w; ret (Some c)
  | Build target => build target w ;; ret None
  end.

(** A sequence of operations, each with the world it meets, whatever the
    outcome of each. *)
Definition perform_all (ops : list (Op * World)) (h : Heap) : Heap :=
  foldl (fun h ow => snd (perform (fst ow) (snd ow) h)) h ops.

End Driver.
End Legacy.

(** ** src/diagnostics.ts *)

Module Diagnostics.

(** A JavaScript [Map] with string keys: its entries in insertion order. *)
Section JsMap.
Context {V : Type}.

(** [m.has(k)] *)
Fixpoint map_has (m : list (string * V)) (k : string) : bool :=
  match m with
  | [] => false
  | (k', _) :: m' => String.eqb k' k || map_has m' k
  end.

(** [m.get(k)]; [None] is [undefined]. *)
Fixpoint map_get (m : list (string * V)) (k : string) : option V :=
  match m with
  | [] => None
  | (k', v) :: m' => if String.eqb k' k then Some v else map_get m' k
  end.

(** [m.set(k, v)]: a key that is there keeps its place. *)
Fixpoint map_set (m : list (string * V)) (k : string) (v : V) : list (string * V) :=
  match m with
  | [] => [(k, v)]
  | (k', v') :: m' => if String.eqb k' k then (k', v) :: m' else (k', v') :: map_set m' k v
  end.

End JsMap.

Section Populate.
(** [vscode.Diagnostic], [vscode.Uri] and [vscode.Uri.file]. *)
Context {Diagnostic Uri : Type}.
Variable Uri_file : string -> Uri.

(** [interface FileDiagnostic] *)
Record FileDiagnostic := {
  filepath : string;
  diag : Diagnostic;
}.

(** A call on a [vscode.DiagnosticCollection]. *)
Inductive CollectionCall :=
| Clear
| Set_ (uri : Uri) (diags : list Diagnostic).

(** The function given to [reduce]: [push] on the array of the file, which
    is changed in place, so the entry keeps its place in the map.  The key
    has just been set when it was missing, so [get] finds it; on
    [undefined] JavaScript would throw. *)
Definition by_file_step (by_file : list (string * list Diagnostic)) (fdiag : FileDiagnostic)
    : list (string * list Diagnostic) :=
  let by_file :=
    if negb (map_has by_file (filepath fdiag))
    then map_set by_file (filepath fdiag) []
    else by_file in
  match map_get by_file (filepath fdiag) with
  | Some diags => map_set by_file (filepath fdiag) (diags ++ [diag fdiag])
  | None => by_file
  end.

(** [populateCollection(coll, fdiags)]: the calls made on [coll], in order.
    [reduce] of '@cmt/util', which is not among the sources, is taken as
    the left fold its use shows. *)
Definition populateCollection (fdiags : list FileDiagnostic) : list CollectionCall :=
  let diags_by_file := foldl by_file_step [] fdiags in
  Clear :: ((fun e => Set_ (Uri_file (fst e)) (snd e)) <$> diags_by_file).

End Populate.

End Diagnostics.

(** ** Sample data for the concrete statements *)

Module Sample.
Import Legacy.

(** A [cmakeify] for settings whose values are strings. *)
Definition cmakeify (v : string) : CMakeValue.t :=
  {| CMakeValue.type := "STRING"; CMakeValue.value := v |}.

Definition kit : Kit.t :=
  {| Kit.name := "GCC"; Kit.type := "compilerKit"; Kit.compilers := [("CXX", "g++")] |}.

(** A world in which everything succeeds: no cache file yet, the Ninja
    generator, four jobs, a tool that prints nothing and exits with 0. *)
Definition world : World :=
  {| binaryDir := "/p/build";
     sourceDir := "/p";
     cachePath := "/p/build/CMakeCache.txt";
     generatorName := Some "Ninja";
     cmakePath := "cmake";
     numJobs := 4;
     super_init := Resolved None;
     _kitChangeNeedsClean := false;
     _beforeConfigure := true;
     _cmakeFlags := [];
     _reloadCMakeCache := Resolved tt;
     rmdir_binaryDir := Resolved tt;
     exists_cachePath := false;
     clean_exists_cache := false;
     clean_unlink_cache := Resolved tt;
     clean_exists_cmake_files := false;
     clean_rmdir_cmake_files := Resolved tt;
     tool := Proc.Runs [] 0;
     help := Proc.Runs [] 0 |}.

(** The same world, but the binary directory must go and cannot. *)
Definition world_rmdir_fails : World :=
  {| binaryDir := "/p/build";
     sourceDir := "/p";
     cachePath := "/p/build/CMakeCache.txt";
     generatorName := Some "Ninja";
     cmakePath := "cmake";
     numJobs := 4;
     super_init := Resolved None;
     _kitChangeNeedsClean := true;
     _beforeConfigure := true;
     _cmakeFlags := [];
     _reloadCMakeCache := Resolved tt;
     rmdir_binaryDir := Rejected "EBUSY";
     exists_cachePath := false;
     clean_exists_cache := false;
     clean_unlink_cache := Resolved tt;
     clean_exists_cmake_files := false;
     clean_rmdir_cmake_files := Resolved tt;
     tool := Proc.Runs [] 0;
     help := Proc.Runs [] 0 |}.

(** The same world, but the tool exits with 1. *)
Definition world_tool_fails : World :=
  {| binaryDir := "/p/build";
     sourceDir := "/p";
     cachePath := "/p/build/CMakeCache.txt";
     generatorName := Some "Ninja";
     cmakePath := "cmake";
     numJobs := 4;
     super_init := Resolved None;
     _kitChangeNeedsClean := false;
     _beforeConfigure := true;
     _cmakeFlags := [];
     _reloadCMakeCache := Resolved tt;
     rmdir_binaryDir := Resolved tt;
     exists_cachePath := false;
     clean_exists_cache := false;
     clean_unlink_cache := Resolved tt;
     clean_exists_cmake_files := false;
     clean_rmdir_cmake_files := Resolved tt;
     tool := Proc.Runs [] 1;
     help := Proc.Runs [] 0 |}.

(** The same world, but the checks before a configure fail. *)
Definition world_checks_fail : World :=
  {| binaryDir := "/p/build";
     sourceDir := "/p";
     cachePath := "/p/build/CMakeCache.txt";
     generatorName := Some "Ninja";
     cmakePath := "cmake";
     numJobs := 4;
     super_init := Resolved None;
     _kitChangeNeedsClean := false;
     _beforeConfigure := false;
     _cmakeFlags := [];
     _reloadCMakeCache := Resolved tt;
     rmdir_binaryDir := Resolved tt;
     exists_cachePath := false;
     clean_exists_cache := false;
     clean_unlink_cache := Resolved tt;
     clean_exists_cmake_files := false;
     clean_rmdir_cmake_files := Resolved tt;
     tool := Proc.Runs [] 0;
     help := Proc.Runs [] 0 |}.

(** A driver with a kit and the setting [FOO = bar], and no consumer. *)
Definition driver : LegacyCMakeDriver :=
  {| _kit := Some kit;
     _needsReconfigure := true;
     _buildType := "Debug";
     _configArgs := [ {| Variant.key := "FOO"; Variant.value := "bar" |} ];
     _linkage := Variant.static;
     _targets := [] |}.

Definition heap : Heap (C := list Proc.Call) :=
  {| this := driver; consumer := None; spawned := [] |}.

End Sample.

(** ** Vocabulary of the statements *)

Module Text.

(** The number of times the character [c] occurs in [s]. *)
Fixpoint occurrences (c : ascii) (s : string) : nat :=
  match s with
  | EmptyString => 0%nat
  | String c' s' => ((if Ascii.eqb c' c then 1 else 0) + occurrences c s')%nat
  end.

(** The chunks of a stream, put end to end. *)
Definition concat (chunks : list string) : string :=
  foldr String.append EmptyString chunks.

(** The lines a text is made of: what stands before each line feed. *)
Definition lines (s : string) : list string := removelast (Js.split Js.LF s).

Definition nl : string := String Js.LF EmptyString.
Definition cr : string := String Js.CR EmptyString.

(** The pieces of a chunk with the pending partial line put in front of the
    first one. *)
Definition glue (acc : string) (pieces : list string) : list string :=
  match pieces with
  | h :: t => (acc +:+ h) :: t
  | [] => [acc +:+ "undefined"]
  end.

(** [s] without its first [n] characters. *)
Fixpoint drop (n : nat) (s : string) : string :=
  match n, s with
  | O, _ => s
  | S n', String _ s' => drop n' s'
  | S _, EmptyString => EmptyString
  end.

(** [s] up to its first character [c], or all of [s] when it has none. *)
Fixpoint takeUntil (c : ascii) (s : string) : string :=
  match s with
  | EmptyString => EmptyString
  | String x s' => if Ascii.eqb x c then EmptyString else String x (takeUntil c s')
  end.

(** The target a line of a Makefile generator names: what follows its fourth
    character, up to the first space. *)
Definition makefile_target (line : string) : string :=
  takeUntil " " (drop 4 line).

(** The process that lists the targets. *)
Definition helpInvocation {Value : Type} (w : Legacy.World)
    (d : Legacy.LegacyCMakeDriver (Value := Value)) : Legacy.Invocation :=
  {| Legacy.command := Legacy.cmakePath w;
     Legacy.args := ["--build"; Legacy.binaryDir w; "--config"; Legacy._buildType d;
                     "--target"; "help"] |}.

(** The arguments of the process [configure] starts for a driver [d] whose
    kit is [kit]. *)
Definition configureArgs {Value : Type} (cmakeify : Value -> CMakeValue.t)
    (normalizePath : string -> string) (w : Legacy.World)
    (d : Legacy.LegacyCMakeDriver (Value := Value)) (kit : Kit.t) : list string :=
  (if Legacy.exists_cachePath w then [] else ["-GNinja"])
  ++ Legacy.settingArgs cmakeify d
  ++ ["-DCMAKE_BUILD_TYPE:STRING=" +:+ Legacy._buildType d]
  ++ Legacy.kitArgs kit
  ++ Legacy._cmakeFlags w
  ++ ["-H" +:+ normalizePath (Legacy.sourceDir w);
      "-B" +:+ normalizePath (Legacy.binaryDir w)].

(** The arguments of the process [build] starts, before the flags that
    depend on the generator. *)
Definition buildArgs {Value : Type} (w : Legacy.World)
    (d : Legacy.LegacyCMakeDriver (Value := Value)) (target : string) : list string :=
  ["--build"; Legacy.binaryDir w; "--config"; Legacy._buildType d; "--target"; target; "--"].

(** A text that holds no line terminator. *)
Definition oneLine (s : string) : Prop :=
  occurrences Js.LF s = 0%nat /\ occurrences Js.CR s = 0%nat.

(** The documentation the comment lines [docs] add to the accumulator: the
    text after the two slashes of each, a space after each. *)
Definition docText (docs : list string) : string :=
  foldr (fun d rest => Cache.dotStar (Js.substr d 2 None) +:+ " " +:+ rest) "" docs.

(** The type tokens of the lookup table. *)
Definition typeTokens : list string := fst <$> Cache.typemap_own.

(** The chunks of one stream among the events of a child. *)
Definition stdoutChunks (events : list Proc.ChildEvent) : list string :=
  omap (fun ev => match ev with Proc.StdoutData str => Some str | _ => None end) events.

Definition stderrChunks (events : list Proc.ChildEvent) : list string :=
  omap (fun ev => match ev with Proc.StderrData str => Some str | _ => None end) events.

(** The lines of the [output] calls, and of the [error] calls, of a record. *)
Definition outputLines (calls : list Proc.Call) : list string :=
  omap (fun call => match call with Proc.Output l => Some l | _ => None end) calls.

Definition errorLines (calls : list Proc.Call) : list string :=
  omap (fun call => match call with Proc.Error l => Some l | _ => None end) calls.

(** A consumer after the calls of a record, made in order. *)
Definition replay {C : Type} `{Proc.OutputConsumer C} (calls : list Proc.Call) (c : C) : C :=
  foldl (fun c call =>
           match call with
           | Proc.Output l => Proc.output l c
           | Proc.Error l => Proc.error l c
           end) c calls.

(** What is left of a text after its last line feed, if anything is. *)
Definition pending (s : string) : list string :=
  let l := List.last (Js.split Js.LF s) "" in
  if Js.truthy l then [l] else [].

(** The handler of an event, as [execute] installs them. *)
Definition handle {C : Type} `{Proc.OutputConsumer C} (st : Proc.ExecState C)
    (ev : Proc.ChildEvent) : Proc.ExecState C :=
  match ev with
  | Proc.StdoutData str => Proc.on_stdout_data str st
  | Proc.StderrData str => Proc.on_stderr_data str st
  end.

(** The call that reports a partial line when the child closes. *)
Definition flush (line : string) : list string :=
  if Js.truthy line then [line] else [].

(** One stream seen by its handler: the lines reported for the chunks, and
    the partial line kept at the end, from the partial line [acc] kept
    before. *)
Fixpoint stream (acc : string) (chunks : list string) : list string * string :=
  match chunks with
  | [] => ([], acc)
  | ch :: chunks' =>
      let pieces := glue acc (Proc.stripCR <$> Js.split Js.LF ch) in
      let '(ls, p) := stream (List.last pieces "") chunks' in
      (removelast pieces ++ ls, p)
  end.

(** [s] up to the first place where [p] occurs in it, or all of [s]. *)
Fixpoint beforeFirst (p s : string) : string :=
  if String.prefix p s then EmptyString
  else match s with
       | EmptyString => EmptyString
       | String c s' => String c (beforeFirst p s')
       end.

(** The target record the driver keeps for a name. *)
Definition named (t : string) : NamedTarget.t :=
  {| NamedTarget.type := "named"; NamedTarget.name := t |}.

(** The elements of a list, each once, in the order of their first
    occurrence. *)
Definition firsts (l : list string) : list string :=
  foldl (fun acc x => if decide (x ∈ acc) then acc else acc ++ [x]) [] l.

(** The diagnostics of the file [fp] among [fdiags], in order. *)
Definition diagsOf {Diagnostic : Type} (fp : string)
    (fdiags : list (Diagnostics.FileDiagnostic (Diagnostic := Diagnostic)))
    : list Diagnostic :=
  Diagnostics.diag <$> filter (fun f => Diagnostics.filepath f = fp) fdiags.

(** The lines [ls] written one after the other with [sep] between them. *)
Fixpoint join (sep : string) (ls : list string) : string :=
  match ls with
  | [] => ""
  | [l] => l
  | l :: rest => l +:+ sep +:+ join sep rest
  end.

Definition crnl : string := String Js.CR (String Js.LF EmptyString).

End Text.

(** * Facts about the string methods *)

#[local] Arguments String.append !s1 s2 : simpl nomatch.

Module JsFacts.

Lemma append_empty_r (s : string) : s +:+ "" = s.
Proof. induction s as [|c s IH]; simpl; [reflexivity | now rewrite IH]. Qed.

Lemma append_assoc (a b c : string) : (a +:+ b) +:+ c = a +:+ (b +:+ c).
Proof. induction a as [|x a IH]; simpl; [reflexivity | now rewrite IH]. Qed.

Lemma occurrences_app (c : ascii) (a b : string) :
  Text.occurrences c (a +:+ b) = (Text.occurrences c a + Text.occurrences c b)%nat.
Proof. induction a as [|x a IH]; simpl; [reflexivity | rewrite IH; lia]. Qed.

Lemma split_nonempty (sep : ascii) (s : string) : Js.split sep s <> [].
Proof.
  destruct s as [|c s]; simpl; [discriminate |].
  destruct (Ascii.eqb c sep); [discriminate |].
  destruct (Js.split sep s); discriminate.
Qed.

(** [split] returns one piece more than there are separators. *)
Lemma split_length (sep : ascii) (s : string) :
  length (Js.split sep s) = S (Text.occurrences sep s).
Proof.
  induction s as [|c s IH]; simpl; [reflexivity |].
  destruct (Ascii.eqb c sep); simpl; [now rewrite IH |].
  destruct (Js.split sep s) eqn:E; simpl in *; [discriminate | exact IH].
Qed.

(** No piece contains the separator. *)
Lemma split_pieces (sep : ascii) (s piece : string) :
  piece ∈ Js.split sep s -> Text.occurrences sep piece = 0%nat.
Proof.
  revert piece. induction s as [|c s IH]; simpl; intros piece Hin.
  - apply list_elem_of_singleton in Hin. now subst.
  - destruct (Ascii.eqb c sep) eqn:Ec.
    + apply elem_of_cons in Hin as [-> | Hin]; [reflexivity | now apply IH].
    + destruct (Js.split sep s) as [|h t] eqn:E.
      * apply list_elem_of_singleton in Hin. subst. simpl. now rewrite Ec.
      * apply elem_of_cons in Hin as [-> | Hin].
        -- simpl. rewrite Ec. apply IH. left.
        -- apply IH. now right.
Qed.

(** A text without separator is its own single piece. *)
Lemma split_no_sep (sep : ascii) (s : string) :
  Text.occurrences sep s = 0%nat -> Js.split sep s = [s].
Proof.
  induction s as [|c s IH]; simpl; [reflexivity |].
  destruct (Ascii.eqb c sep); [discriminate |].
  intros H0. now rewrite IH.
Qed.

(** A piece has no more occurrences of a character than the text. *)
Lemma split_pieces_occ (sep c : ascii) (s piece : string) :
  piece ∈ Js.split sep s -> (Text.occurrences c piece <= Text.occurrences c s)%nat.
Proof.
  revert piece. induction s as [|x s IH]; simpl; intros piece Hin.
  - apply list_elem_of_singleton in Hin. subst. simpl. lia.
  - destruct (Ascii.eqb x sep) eqn:Ex.
    + apply elem_of_cons in Hin as [-> | Hin]; [simpl; lia |].
      specialize (IH _ Hin). lia.
    + destruct (Js.split sep s) as [|h t] eqn:E.
      * apply list_elem_of_singleton in Hin. subst. simpl. lia.
      * apply elem_of_cons in Hin as [-> | Hin].
        -- simpl. assert (Hh : h ∈ h :: t) by left. specialize (IH _ Hh). lia.
        -- assert (Hp : piece ∈ h :: t) by now right. specialize (IH _ Hp). lia.
Qed.

(** Splitting a text put together from two: the last piece of the first is
    glued to the first piece of the second. *)
Lemma split_app (sep : ascii) (x y : string) :
  Js.split sep (x +:+ y) =
  removelast (Js.split sep x) ++ Text.glue (List.last (Js.split sep x) "") (Js.split sep y).
Proof.
  induction x as [|c x IH].
  - simpl. destruct (Js.split sep y) eqn:E; [now apply split_nonempty in E | reflexivity].
  - change (String c x +:+ y) with (String c (x +:+ y)).
    cbn [Js.split]. rewrite IH. clear IH.
    pose proof (split_nonempty sep x) as Hx.
    destruct (Ascii.eqb c sep).
    + destruct (Js.split sep x) as [|h t]; [congruence | reflexivity].
    + destruct (Js.split sep x) as [|h [|h2 t]]; [congruence | |].
      * simpl. destruct (Js.split sep y) as [|hy ty]; reflexivity.
      * reflexivity.
Qed.

Lemma split_app_pending (sep : ascii) (acc y : string) :
  Text.occurrences sep acc = 0%nat ->
  Js.split sep (acc +:+ y) = Text.glue acc (Js.split sep y).
Proof.
  intros H0. rewrite split_app, (split_no_sep _ _ H0). reflexivity.
Qed.

Lemma substring_one_occ (c : ascii) (s : string) (n : nat) :
  String.substring n 1 s = String c "" -> (0 < Text.occurrences c s)%nat.
Proof.
  revert n. induction s as [|x s IH]; intros [|n]; simpl; try discriminate.
  - destruct s; intros [= ->]; rewrite Ascii.eqb_refl; lia.
  - intros Hs. specialize (IH _ Hs). lia.
Qed.

Lemma endsWith_char_absent (c : ascii) (s : string) :
  Text.occurrences c s = 0%nat -> Js.endsWith s (String c "") = false.
Proof.
  intros H0. unfold Js.endsWith. destruct (_ <? 0); [reflexivity |].
  apply String.eqb_neq. intros Hs. apply substring_one_occ in Hs. lia.
Qed.

Lemma prefix_cons (a b : ascii) (p s : string) :
  String.prefix (String a p) (String b s) = Ascii.eqb a b && String.prefix p s.
Proof.
  simpl. destruct (ascii_dec a b) as [-> | Hne].
  - now rewrite Ascii.eqb_refl.
  - apply Ascii.eqb_neq in Hne. now rewrite Hne.
Qed.

(** [startsWith] holds of the texts that begin with the prefix. *)
Lemma startsWith_spec (s p : string) :
  Js.startsWith s p = true <-> exists post, s = p +:+ post.
Proof.
  unfold Js.startsWith. revert s. induction p as [|a p IH]; intros s.
  - destruct s; simpl; split; eauto.
  - destruct s as [|b s].
    + simpl. split; [discriminate | intros [post Hp]; discriminate].
    + rewrite prefix_cons, andb_true_iff, IH, Ascii.eqb_eq. split.
      * intros [-> [post ->]]. now exists post.
      * intros [post [= -> ->]]. eauto.
Qed.

(** [includes] holds of the texts in which the other text occurs. *)
Lemma includes_spec (s p : string) :
  Js.includes s p = true <-> exists pre post, s = pre +:+ p +:+ post.
Proof.
  induction s as [|c s IH].
  - cbn [Js.includes]. rewrite orb_false_r.
    change (String.prefix p "") with (Js.startsWith "" p). rewrite startsWith_spec. split.
    + intros [post Hp]. now exists "", post.
    + intros (pre & post & Hp). destruct pre; [now exists post | discriminate].
  - cbn [Js.includes]. rewrite orb_true_iff, IH.
    change (String.prefix p (String c s)) with (Js.startsWith (String c s) p).
    rewrite startsWith_spec. split.
    + intros [[post Hp] | (pre & post & ->)].
      * now exists "", post.
      * now exists (String c pre), post.
    + intros (pre & post & Hp). destruct pre as [|x pre].
      * left. now exists post.
      * right. injection Hp as _ ->. now exists pre, post.
Qed.

Lemma substring_all_of_short (s : string) (n : nat) :
  String.substring 0 (Nat.min n (String.length s)) s = String.substring 0 n s.
Proof.
  revert n. induction s as [|c s IH]; intros [|n]; simpl; try reflexivity.
  now rewrite IH.
Qed.

(** [s.substr(0, i)] keeps the first [i] characters. *)
Lemma substr_take (s : string) (i : Z) :
  0 <= i -> Js.substr s 0 (Some i) = String.substring 0 (Z.to_nat i) s.
Proof.
  intros Hi. unfold Js.substr, Js.len. simpl default.
  replace (0 <? 0) with false by reflexivity.
  rewrite (Z.min_l 0) by lia. rewrite Z2Nat.inj_0.
  rewrite <- (substring_all_of_short s (Z.to_nat i)). f_equal. lia.
Qed.

Lemma substring_rest (s : string) (k : nat) :
  String.substring k (String.length s - k) s = Text.drop k s.
Proof.
  revert k. induction s as [|c s IH]; intros [|k]; simpl; try reflexivity.
  - f_equal. specialize (IH 0%nat). simpl in IH. rewrite Nat.sub_0_r in IH.
    destruct s; [reflexivity | exact IH].
  - apply IH.
Qed.

Lemma drop_all (s : string) (k : nat) :
  (String.length s <= k)%nat -> Text.drop k s = "".
Proof.
  revert k. induction s as [|c s IH]; intros [|k]; simpl; try reflexivity; try lia.
  intros Hle. apply IH. lia.
Qed.

(** [s.substr(k)] drops the first [k] characters. *)
Lemma substr_drop (s : string) (k : nat) :
  Js.substr s (Z.of_nat k) None = Text.drop k s.
Proof.
  unfold Js.substr, Js.len. simpl default.
  replace (Z.of_nat k <? 0) with false by (symmetry; apply Z.ltb_ge; lia).
  destruct (Nat.le_gt_cases k (String.length s)) as [Hle | Hgt].
  - rewrite Z.min_l by lia. rewrite Z.min_r by lia.
    rewrite Nat2Z.id, <- substring_rest. f_equal. lia.
  - rewrite Z.min_r by lia. rewrite Z.min_r by lia.
    rewrite Z.sub_diag, Nat2Z.id, drop_all by lia.
    simpl. clear. induction s as [|c s IH]; [reflexivity |]. simpl.
    destruct (String.length s); simpl in *; exact IH.
Qed.

Lemma prefix_empty (s : string) : String.prefix "" s = true.
Proof. now destruct s. Qed.

Lemma includes_char (s : string) (c : ascii) :
  Js.includes s (String c "") = negb (Nat.eqb (Text.occurrences c s) 0).
Proof.
  induction s as [|x s IH]; [reflexivity |].
  cbn [Js.includes]. rewrite prefix_cons, prefix_empty, IH. simpl.
  rewrite (Ascii.eqb_sym c x). now destruct (Ascii.eqb x c).
Qed.

Lemma indexOf_char_nonneg (s : string) (c : ascii) :
  (0 < Text.occurrences c s)%nat -> 0 <= Js.indexOf s (String c "").
Proof.
  induction s as [|x s IH]; simpl Text.occurrences; [lia |].
  cbn [Js.indexOf]. rewrite prefix_cons, prefix_empty, (Ascii.eqb_sym c x).
  destruct (Ascii.eqb x c); simpl.
  - lia.
  - intros Hocc. specialize (IH Hocc).
    destruct (Js.indexOf s (String c "") <? 0) eqn:E; lia.
Qed.

(** Cutting at [indexOf] when the character occurs is cutting before its
    first occurrence. *)
Lemma truncate_at_char (t : string) (c : ascii) :
  (if Js.includes t (String c "")
   then Js.substr t 0 (Some (Js.indexOf t (String c "")))
   else t) = Text.takeUntil c t.
Proof.
  induction t as [|x t IH]; [reflexivity |].
  rewrite includes_char in *. simpl Text.occurrences. simpl Text.takeUntil.
  destruct (Ascii.eqb x c) eqn:Ex.
  - simpl negb. cbv iota. cbn [Js.indexOf].
    rewrite prefix_cons, prefix_empty, (Ascii.eqb_sym c x), Ex.
    reflexivity.
  - simpl plus. destruct (Text.occurrences c t) as [|k] eqn:Eocc.
    + simpl in *. now rewrite <- IH.
    + simpl negb in *. cbv iota in *.
      pose proof (indexOf_char_nonneg t c ltac:(lia)) as Hnn.
      cbn [Js.indexOf]. rewrite prefix_cons, prefix_empty, (Ascii.eqb_sym c x), Ex.
      simpl andb. cbv iota.
      replace (Js.indexOf t (String c "") <? 0) with false by (symmetry; apply Z.ltb_ge; lia).
      rewrite substr_take by lia. rewrite substr_take in IH by lia.
      rewrite Z2Nat.inj_add by lia. rewrite Nat.add_1_r. simpl. now rewrite IH.
Qed.

End JsFacts.

(** * The line buffering of [execute] *)

Module ProcFacts.
Import Proc.

Section Drain.
Context {C : Type} `{OutputConsumer C}.

(** The loop emits every glued piece but the last, which stays pending. *)
Lemma drain_glue (emit : string -> C -> C) (lines : list string) (acc : string)
    (oc : option C) :
  let '(rest, acc', oc') := drain emit lines acc oc in
  appendFirst acc' rest = List.last (Text.glue acc lines) "" /\
  oc' = foldl (fun o l => emit l <$> o) oc (removelast (Text.glue acc lines)).
Proof.
  revert acc oc. induction lines as [|l [|l' rest] IH]; intros acc oc.
  - simpl. split; reflexivity.
  - simpl. split; reflexivity.
  - specialize (IH "" (emit (acc +:+ l) <$> oc)).
    change (drain emit (l :: l' :: rest) acc oc)
      with (drain emit (l' :: rest) "" (emit (acc +:+ l) <$> oc)).
    destruct (drain emit (l' :: rest) "" (emit (acc +:+ l) <$> oc)) as [[r a] o].
    destruct IH as [IH1 IH2]. split.
    + rewrite IH1. reflexivity.
    + rewrite IH2. reflexivity.
Qed.

End Drain.

(** What one chunk does to a recording consumer and to the pending line. *)
Lemma on_stdout_data_recorder (str : string) (st : ExecState (list Call))
    (calls : list Call) :
  outputConsumer st = Some calls ->
  let pieces := Text.glue (line_acc st) (stripCR <$> Js.split Js.LF str) in
  outputConsumer (on_stdout_data str st) = Some (calls ++ (Output <$> removelast pieces)) /\
  line_acc (on_stdout_data str st) = List.last pieces "".
Proof.
  intros Hoc pieces. unfold on_stdout_data.
  pose proof (drain_glue output (stripCR <$> Js.split Js.LF str) (line_acc st)
                (outputConsumer st)) as Hd.
  destruct (drain output (stripCR <$> Js.split Js.LF str) (line_acc st) (outputConsumer st))
    as [[rest acc'] oc'].
  destruct Hd as [Hacc Hout]. simpl. split; [| exact Hacc].
  rewrite Hout, Hoc. fold pieces. clear.
  generalize (removelast pieces) as ls. intros ls. revert calls.
  induction ls as [|l ls IH]; intros calls; simpl.
  - now rewrite app_nil_r.
  - rewrite IH. now rewrite <- app_assoc.
Qed.

(** Without a carriage return a piece is kept as it is. *)
Lemma stripCR_absent (l : string) : Text.occurrences Js.CR l = 0%nat -> stripCR l = l.
Proof.
  intros H0. unfold stripCR. now rewrite (JsFacts.endsWith_char_absent _ _ H0).
Qed.

Lemma removelast_length {A} (l : list A) : length (removelast l) = (length l - 1)%nat.
Proof.
  induction l as [|a [|b l] IH]; [reflexivity | reflexivity |].
  change (removelast (a :: b :: l)) with (a :: removelast (b :: l)).
  simpl length in *. rewrite IH. lia.
Qed.

Lemma last_app_nonempty {A} (l1 l2 : list A) (d : A) :
  l2 <> [] -> List.last (l1 ++ l2) d = List.last l2 d.
Proof.
  intros Hne. destruct (exists_last Hne) as (l & a & ->).
  now rewrite app_assoc, !last_last.
Qed.

Lemma removelast_fmap {A B} (f : A -> B) (l : list A) :
  f <$> removelast l = removelast (f <$> l).
Proof.
  induction l as [|a [|b l] IH]; [reflexivity | reflexivity |].
  change (removelast (a :: b :: l)) with (a :: removelast (b :: l)).
  rewrite !fmap_cons, IH. reflexivity.
Qed.

Lemma fmap_fixed {A} (f : A -> A) (l : list A) :
  (forall x, x ∈ l -> f x = x) -> f <$> l = l.
Proof.
  induction l as [|a l IH]; intros Hf; [reflexivity |].
  rewrite fmap_cons, Hf by left. f_equal. apply IH. intros x Hx. apply Hf. now right.
Qed.

(** Whatever the chunks, a recording consumer receives as many [output]
    calls as there are line feeds in the stream. *)
Lemma feed_stdout_count (chunks : list string) :
  forall (st : ExecState (list Call)) (calls : list Call),
    outputConsumer st = Some calls ->
    exists outs,
      outputConsumer (feed_stdout chunks st) = Some (calls ++ (Output <$> outs)) /\
      length outs = Text.occurrences Js.LF (Text.concat chunks).
Proof.
  induction chunks as [|ch chunks IH]; intros st calls Hoc.
  - exists []. simpl. now rewrite app_nil_r.
  - destruct (on_stdout_data_recorder ch st calls Hoc) as [Hc _].
    destruct (IH _ _ Hc) as (outs & Hout & Hlen).
    eexists (_ ++ outs). split.
    + unfold feed_stdout in *. simpl. rewrite Hout, fmap_app, app_assoc. reflexivity.
    + rewrite length_app, Hlen, removelast_length. simpl Text.concat.
      rewrite JsFacts.occurrences_app.
      pose proof (JsFacts.split_length Js.LF ch) as Hs.
      destruct (Js.split Js.LF ch) as [|h t]; [discriminate |].
      simpl in *. rewrite length_fmap. lia.
Qed.

(** Without carriage returns in the stream, the calls are the lines of the
    stream, whatever the chunks. *)
Lemma feed_stdout_exact (chunks : list string) :
  forall (st : ExecState (list Call)) (calls : list Call),
    outputConsumer st = Some calls ->
    Text.occurrences Js.LF (line_acc st) = 0%nat ->
    Text.occurrences Js.CR (line_acc st) = 0%nat ->
    Forall (fun ch => Text.occurrences Js.CR ch = 0%nat) chunks ->
    let whole := line_acc st +:+ Text.concat chunks in
    outputConsumer (feed_stdout chunks st) = Some (calls ++ (Output <$> Text.lines whole)) /\
    line_acc (feed_stdout chunks st) = List.last (Js.split Js.LF whole) "".
Proof.
  induction chunks as [|ch chunks IH]; intros st calls Hoc Hlf Hcr Hall whole.
  - subst whole. simpl. rewrite JsFacts.append_empty_r. unfold Text.lines.
    rewrite (JsFacts.split_no_sep _ _ Hlf). simpl. now rewrite app_nil_r.
  - apply Forall_cons in Hall as [Hch Hall].
    destruct (on_stdout_data_recorder ch st calls Hoc) as [Hc Ha].
    assert (Hstrip : stripCR <$> Js.split Js.LF ch = Js.split Js.LF ch).
    { apply fmap_fixed. intros piece Hin. apply stripCR_absent.
      pose proof (JsFacts.split_pieces_occ Js.LF Js.CR _ _ Hin). lia. }
    rewrite Hstrip, <- (JsFacts.split_app_pending _ _ _ Hlf) in Hc, Ha.
    set (first := line_acc st +:+ ch) in *.
    assert (Hlast : List.last (Js.split Js.LF first) "" ∈ Js.split Js.LF first).
    { pose proof (JsFacts.split_nonempty Js.LF first) as Hne.
      apply list_elem_of_In.
      destruct (exists_last Hne) as (l & a & ->). rewrite last_last.
      apply in_app_iff. right. now left. }
    assert (Hlf1 : Text.occurrences Js.LF (line_acc (on_stdout_data ch st)) = 0%nat).
    { rewrite Ha. now apply (JsFacts.split_pieces Js.LF first). }
    assert (Hcr1 : Text.occurrences Js.CR (line_acc (on_stdout_data ch st)) = 0%nat).
    { rewrite Ha. pose proof (JsFacts.split_pieces_occ Js.LF Js.CR _ _ Hlast) as Hle.
      subst first. rewrite JsFacts.occurrences_app in Hle. lia. }
    destruct (IH _ _ Hc Hlf1 Hcr1 Hall) as [Hout Hacc].
    assert (Hwhole : Js.split Js.LF whole =
                     removelast (Js.split Js.LF first)
                       ++ Js.split Js.LF (line_acc (on_stdout_data ch st) +:+ Text.concat chunks)).
    { subst whole. simpl Text.concat. rewrite <- JsFacts.append_assoc. fold first.
      rewrite JsFacts.split_app, (JsFacts.split_app_pending _ _ _ Hlf1), Ha. reflexivity. }
    pose proof (JsFacts.split_nonempty Js.LF
                  (line_acc (on_stdout_data ch st) +:+ Text.concat chunks)) as Hne.
    unfold feed_stdout in *. simpl foldl. split.
    + rewrite Hout. unfold Text.lines. rewrite Hwhole, (removelast_app _ Hne).
      rewrite fmap_app, app_assoc. reflexivity.
    + rewrite Hacc, Hwhole. symmetry. now apply last_app_nonempty.
Qed.

(** The number of [output] calls is the number of line feeds of the stream,
    for every way of cutting the stream into chunks. *)
Lemma outputs_count (chunks : list string) :
  exists outs,
    outputs_of chunks = Some (Output <$> outs) /\
    length outs = Text.occurrences Js.LF (Text.concat chunks).
Proof.
  destruct (feed_stdout_count chunks (start (Some [])) [] eq_refl) as (outs & Hout & Hlen).
  exists outs. split; [exact Hout | exact Hlen].
Qed.

(** A stream without carriage returns is reported line by line, each line
    once and as it is, for every way of cutting it into chunks. *)
Lemma outputs_without_carriage_return (chunks : list string) :
  Forall (fun ch => Text.occurrences Js.CR ch = 0%nat) chunks ->
  outputs_of chunks = Some (Output <$> Text.lines (Text.concat chunks)).
Proof.
  intros Hall.
  destruct (feed_stdout_exact chunks (start (Some [])) [] eq_refl eq_refl eq_refl Hall)
    as [Hout _].
  exact Hout.
Qed.

(** A stream delivered in one chunk is reported line by line, a carriage
    return before the line feed taken off. *)
Lemma outputs_one_chunk (str : string) :
  outputs_of [str] = Some (Output <$> (stripCR <$> Text.lines str)).
Proof.
  destruct (on_stdout_data_recorder str (start (Some [])) [] eq_refl) as [Hout _].
  unfold outputs_of, feed_stdout. simpl foldl. rewrite Hout.
  change (line_acc (start (Some []))) with "".
  unfold Text.lines. rewrite (removelast_fmap stripCR).
  pose proof (JsFacts.split_nonempty Js.LF str) as Hne.
  destruct (Js.split Js.LF str) as [|h t]; [congruence | reflexivity].
Qed.

(** C1 (fails on the code): a carriage return that ends a chunk is taken off
    although no line feed follows it.  The line [a CR b], delivered as the
    chunks [a CR] and [b LF], is reported as [ab]; delivered in one chunk it
    is reported as it is.  So the content of a call depends on where the
    stream was cut. *)
Theorem C1_carriage_return_at_chunk_end :
  outputs_of ["a" +:+ Text.cr; "b" +:+ Text.nl] = Some [Output "ab"] /\
  outputs_of ["a" +:+ Text.cr +:+ "b" +:+ Text.nl] = Some [Output ("a" +:+ Text.cr +:+ "b")] /\
  snd (execute (Runs [StdoutData ("a" +:+ Text.cr); StdoutData ("b" +:+ Text.nl)] 0) (Some []))
  = Some [Output "ab"] /\
  snd (execute (Runs [StdoutData ("a" +:+ Text.cr +:+ "b" +:+ Text.nl)] 0) (Some []))
  = Some [Output ("a" +:+ Text.cr +:+ "b")] /\
  ("a" +:+ Text.cr +:+ "b") <> "ab".
Proof.
  split; [| split; [| split; [| split]]].
  - vm_compute. reflexivity.
  - rewrite outputs_one_chunk. vm_compute. reflexivity.
  - vm_compute. reflexivity.
  - vm_compute. reflexivity.
  - intros Heq. vm_compute in Heq. discriminate Heq.
Qed.

End ProcFacts.

(** * The cache file *)

Module CacheFacts.
Import Cache.

(** ** The entry pattern *)

Lemma isLineTerminator_false (c : ascii) (s : string) :
  Text.oneLine (String c s) -> Js.isLineTerminator c = false /\ Text.oneLine s.
Proof.
  unfold Text.oneLine, Js.isLineTerminator. simpl. intros [Hlf Hcr].
  destruct (Ascii.eqb c Js.LF); [discriminate |].
  destruct (Ascii.eqb c Js.CR); [discriminate |].
  simpl in *. auto.
Qed.

Lemma dotStar_oneLine (s : string) : Text.oneLine s -> dotStar s = s.
Proof.
  induction s as [|c s IH]; intros Hs; [reflexivity |].
  apply isLineTerminator_false in Hs as [Hc Hs]. simpl. rewrite Hc. now rewrite IH.
Qed.

Lemma oneLine_app (a b : string) : Text.oneLine (a +:+ b) <-> Text.oneLine a /\ Text.oneLine b.
Proof.
  unfold Text.oneLine. rewrite !JsFacts.occurrences_app. lia.
Qed.

(** On a line, the tail of the pattern cuts at the first equals sign. *)
Lemma execTypeValue_Some (s t v : string) :
  Text.oneLine s ->
  execTypeValue s = Some (t, v) <->
  s = t +:+ "=" +:+ v /\ Text.occurrences "=" t = 0%nat.
Proof.
  revert t v. induction s as [|c s IH]; intros t v Hs.
  - simpl. split; [discriminate |]. intros [Heq _]. destruct t; discriminate.
  - apply isLineTerminator_false in Hs as [Hc Hs]. simpl. rewrite Hc.
    destruct (Ascii.eqb c "=") eqn:Ec.
    + apply Ascii.eqb_eq in Ec. subst c. rewrite (dotStar_oneLine _ Hs). split.
      * intros [= <- <-]. split; reflexivity.
      * intros [Heq Hocc]. destruct t as [|x t]; simpl in Heq.
        -- injection Heq as ->. reflexivity.
        -- injection Heq as <- _. simpl in Hocc. discriminate.
    + destruct (execTypeValue s) as [[t' v']|] eqn:E.
      * destruct (proj1 (IH t' v' Hs) eq_refl) as [-> Hocc]. split.
        -- intros [= <- <-]. split; [reflexivity |]. simpl. now rewrite Ec.
        -- intros [Heq Hocc']. destruct t as [|x t]; simpl in Heq.
           ++ injection Heq as -> _. simpl in Ec. discriminate.
           ++ injection Heq as <- Heq. simpl in Hocc'. rewrite Ec in Hocc'. simpl in Hocc'.
              assert (Hst : Some (t', v') = Some (t, v)).
              { apply IH; [exact Hs | split; [exact Heq | exact Hocc']]. }
              now injection Hst as -> ->.
      * split; [discriminate |]. intros [Heq Hocc']. destruct t as [|x t]; simpl in Heq.
        -- injection Heq as -> _. simpl in Ec. discriminate.
        -- injection Heq as <- Heq. simpl in Hocc'. rewrite Ec in Hocc'. simpl in Hocc'.
           assert (Hst : None = Some (t, v)).
           { apply IH; [exact Hs | split; [exact Heq | exact Hocc']]. }
           discriminate.
Qed.

Lemma execTypeValue_None (s : string) :
  Text.oneLine s -> execTypeValue s = None -> Text.occurrences "=" s = 0%nat.
Proof.
  induction s as [|c s IH]; intros Hs; [reflexivity |].
  apply isLineTerminator_false in Hs as [Hc Hs]. simpl. rewrite Hc.
  destruct (Ascii.eqb c "="); [discriminate |].
  destruct (execTypeValue s) as [[t v]|]; [discriminate |].
  intros _. now apply IH.
Qed.

(** On a line, the pattern cuts at the first colon and at the first equals
    sign after it; the value is all that follows. *)
Lemma execEntry_Some (s n t v : string) :
  Text.oneLine s ->
  execEntry s = Some (n, t, v) <->
  s = n +:+ ":" +:+ t +:+ "=" +:+ v /\
  Text.occurrences ":" n = 0%nat /\ Text.occurrences "=" t = 0%nat.
Proof.
  intros Hs. split.
  - revert n. induction s as [|c s IH]; intros n; [discriminate |].
    apply isLineTerminator_false in Hs as [Hc Hs]. simpl. rewrite Hc.
    assert (Hlonger :
      match execEntry s with
      | Some (n0, t0, v0) => Some (String c n0, t0, v0)
      | None => None
      end = Some (n, t, v) ->
      Ascii.eqb c ":" = false \/ execTypeValue s = None ->
      String c s = n +:+ ":" +:+ t +:+ "=" +:+ v /\
      Text.occurrences ":" n = 0%nat /\ Text.occurrences "=" t = 0%nat).
    { destruct (execEntry s) as [[[n0 t0] v0]|] eqn:E; [| discriminate].
      intros [= <- <- <-] Hcase. destruct (IH Hs n0 eq_refl) as (Heq & Hn & Ht).
      destruct Hcase as [Ec | Enone].
      - split; [exact (f_equal (String c) Heq) |].
        split; [simpl; rewrite Ec; exact Hn | exact Ht].
      - apply (execTypeValue_None _ Hs) in Enone. rewrite Heq in Enone.
        rewrite !JsFacts.occurrences_app in Enone. simpl in Enone. lia. }
    destruct (Ascii.eqb c ":") eqn:Ec.
    + destruct (execTypeValue s) as [[t' v']|] eqn:E.
      * intros [= <- <- <-]. apply Ascii.eqb_eq in Ec. subst c.
        apply (execTypeValue_Some _ _ _ Hs) in E as [-> Ht]. auto.
      * intros H. apply Hlonger; auto.
    + intros H. apply Hlonger; auto.
  - intros (-> & Hn & Ht). induction n as [|x n IH].
    + change ("" +:+ ":" +:+ t +:+ "=" +:+ v) with (String ":" (t +:+ "=" +:+ v)) in *.
      apply isLineTerminator_false in Hs as [_ Hs].
      cbn [execEntry]. rewrite Ascii.eqb_refl.
      now rewrite (proj2 (execTypeValue_Some _ t v Hs) (conj eq_refl Ht)).
    + change (String x n +:+ ":" +:+ t +:+ "=" +:+ v)
        with (String x (n +:+ ":" +:+ t +:+ "=" +:+ v)) in *.
      apply isLineTerminator_false in Hs as [Hx Hs].
      simpl in Hn. destruct (Ascii.eqb x ":") eqn:Ex; [discriminate |].
      cbn [execEntry]. rewrite Ex, Hx, (IH Hs Hn). reflexivity.
Qed.

(** A line the pattern refuses holds no colon with an equals sign after it. *)
Lemma execEntry_None (s : string) :
  Text.oneLine s ->
  execEntry s = None ->
  forall n t v, s <> n +:+ ":" +:+ t +:+ "=" +:+ v.
Proof.
  induction s as [|c s IH]; intros Hs Hnone n t v Heq.
  - destruct n; discriminate.
  - apply isLineTerminator_false in Hs as [Hc Hs]. simpl in Hnone. rewrite Hc in Hnone.
    destruct n as [|x n].
    + change (String c s = String ":" (t +:+ "=" +:+ v)) in Heq.
      injection Heq as -> ->. rewrite Ascii.eqb_refl in Hnone.
      destruct (execTypeValue (t +:+ String "=" v)) as [[t' v']|] eqn:E;
        [discriminate Hnone |].
      apply (execTypeValue_None _ Hs) in E.
      rewrite !JsFacts.occurrences_app in E. simpl in E. lia.
    + change (String c s = String x (n +:+ ":" +:+ t +:+ "=" +:+ v)) in Heq.
      injection Heq as -> Heq.
      assert (Hs' : execEntry s = None).
      { destruct (execEntry s) as [[[n0 t0] v0]|]; [| reflexivity].
        destruct (Ascii.eqb x ":"); [| discriminate Hnone].
        destruct (execTypeValue s) as [[t' v']|]; discriminate Hnone. }
      exact (IH Hs Hs' n t v Heq).
Qed.

(** ** The lines of a file *)

Lemma oneLine_empty : Text.oneLine "".
Proof. split; reflexivity. Qed.

Lemma splitLines_pieces (s piece : string) :
  piece ∈ splitLines s -> Text.oneLine piece.
Proof.
  remember (String.length s) as n eqn:Hn.
  assert (Hle : (String.length s <= n)%nat) by lia. clear Hn.
  revert s Hle piece. induction n as [|n IH]; intros s Hle piece Hin.
  - destruct s; simpl in Hle; [| lia].
    apply list_elem_of_singleton in Hin. subst. apply oneLine_empty.
  - destruct s as [|c s].
    { apply list_elem_of_singleton in Hin. subst. apply oneLine_empty. }
    simpl in Hle. cbn [splitLines] in Hin.
    destruct (Ascii.eqb c Js.CR) eqn:Ecr.
    + apply elem_of_cons in Hin as [-> | Hin]; [apply oneLine_empty |].
      destruct s as [|c' s'].
      * apply (IH ""); [simpl; lia | exact Hin].
      * destruct (Ascii.eqb c' Js.LF).
        -- apply (IH s'); [simpl in Hle; lia | exact Hin].
        -- apply (IH (String c' s')); [lia | exact Hin].
    + destruct (Ascii.eqb c Js.LF) eqn:Elf.
      * apply elem_of_cons in Hin as [-> | Hin]; [apply oneLine_empty |].
        apply (IH s); [lia | exact Hin].
      * assert (Hs : forall q, q ∈ splitLines s -> Text.oneLine q).
        { intros q Hq. apply (IH s); [lia | exact Hq]. }
        assert (Hc : forall h, Text.oneLine h -> Text.oneLine (String c h)).
        { intros h [H1 H2]. unfold Text.oneLine. simpl. now rewrite Ecr, Elf. }
        destruct (splitLines s) as [|h t].
        -- apply list_elem_of_singleton in Hin. subst. apply Hc, oneLine_empty.
        -- apply elem_of_cons in Hin as [-> | Hin].
           ++ apply Hc, Hs. left.
           ++ apply Hs. now right.
Qed.

(** The lines the loop runs over hold no line terminator, are not empty
    and are no hash comments. *)
Lemma cacheLines_spec (content line : string) :
  line ∈ cacheLines content ->
  Text.oneLine line /\ line <> "" /\ isHashComment line = false.
Proof.
  unfold cacheLines. intros Hin.
  apply list_elem_of_filter in Hin as [Hhash Hin].
  apply list_elem_of_filter in Hin as [Hlen Hin].
  split; [now apply (splitLines_pieces content) |]. split.
  - intros ->. discriminate Hlen.
  - now destruct (isHashComment line).
Qed.

(** ** The loop *)

Section Loop.
Variable isTruthy : string -> bool.

(** The loop goes on after every line. *)
Lemma parse_continues (st : ParseState) (pre post : list string) (line : string) :
  foldl (parseLine isTruthy) st (pre ++ line :: post) =
  foldl (parseLine isTruthy) (parseLine isTruthy (foldl (parseLine isTruthy) st pre) line) post.
Proof. now rewrite foldl_app. Qed.

Lemma typemap_unknown (typename : string) :
  typename ∉ Text.typeTokens -> typename ∉ objectPrototype -> typemap typename = None.
Proof.
  intros Hown Hproto. unfold typemap.
  assert (Hnone : own_property typemap_own typename = None).
  { unfold Text.typeTokens in Hown. induction typemap_own as [|[k v] o IH]; [reflexivity |].
    simpl. rewrite fmap_cons in Hown. apply not_elem_of_cons in Hown as [Hne Hown].
    simpl in Hne. destruct (String.eqb_spec k typename); [congruence | now apply IH]. }
  rewrite Hnone.
  assert (Hex : existsb (String.eqb typename) objectPrototype = false).
  { induction objectPrototype as [|k o IH]; [reflexivity |].
    apply not_elem_of_cons in Hproto as [Hne Hproto]. simpl.
    destruct (String.eqb_spec typename k); [congruence | now apply IH]. }
  now rewrite Hex.
Qed.

(** What the loop does with an entry line that is neither dropped nor
    suppressed. *)
Lemma parseLine_entry (st : ParseState) (line name typename valuestr : string) :
  Js.startsWith line "//" = false ->
  execEntry line = Some (name, typename, valuestr) ->
  name <> "" -> typename <> "" ->
  Js.endsWith name "-ADVANCED" && String.eqb valuestr "1" = false ->
  parseLine isTruthy st line =
  match typemap typename with
  | None =>
      {| entries := entries st;
         docs_acc := "";
         errors := errors st ++
           [ {| message := "Cache entry '" +:+ name +:+ "' has unknown type: '"
                           +:+ typename +:+ "'";
                extra := None |} ] |}
  | Some type =>
      {| entries := <[name := new_Entry isTruthy name valuestr type
                               (Js.trim (docs_acc st)) false]> (entries st);
         docs_acc := "";
         errors := errors st |}
  end.
Proof.
  intros Hdoc Hexec Hn Ht Hadv. unfold parseLine. rewrite Hdoc, Hexec, Hadv.
  destruct name; [congruence |]. destruct typename; [congruence |]. reflexivity.
Qed.

(** Comment lines only feed the accumulator. *)
Lemma parse_docs (docs : list string) (st : ParseState) :
  Forall (fun d => Js.startsWith d "//" = true) docs ->
  foldl (parseLine isTruthy) st docs =
  {| entries := entries st;
     docs_acc := docs_acc st +:+ Text.docText docs;
     errors := errors st |}.
Proof.
  revert st. induction docs as [|d docs IH]; intros st Hall.
  - simpl. rewrite JsFacts.append_empty_r. now destruct st.
  - apply Forall_cons in Hall as [Hd Hall]. simpl foldl. rewrite (IH _ Hall).
    unfold parseLine. rewrite Hd. simpl. f_equal.
    now rewrite !JsFacts.append_assoc.
Qed.

End Loop.

(** ** Properties of the cache *)

(** C6 (as stated it fails): the line [:BOOL=1] has an empty name, so it
    fails the pattern with non-empty name and type; [parseCache] skips it
    and reports nothing. *)
Lemma C6_empty_name_is_not_reported :
  execEntry ":BOOL=1" = Some ("", "BOOL", "1") /\
  cacheLines ":BOOL=1" = [":BOOL=1"] /\
  errors (parseCacheRun (fun _ => true) ":BOOL=1") = [] /\
  parseCache (fun _ => true) ":BOOL=1" = ∅.
Proof. repeat split; vm_compute; reflexivity. Qed.

(** A type token that names a property of [Object.prototype] is found by
    the lookup: the line makes an entry and nothing is reported. *)
Lemma inherited_type_token_makes_entry :
  typemap "constructor" = Some (Inherited "constructor") /\
  errors (parseCacheRun (fun _ => true) "Q:constructor=x") = [] /\
  parseCache (fun _ => true) "Q:constructor=x" !! "Q" =
  Some {| _type := Inherited "constructor"; _docs := ""; _key := "Q";
          _value := VString "x"; _advanced := false |}.
Proof. repeat split; vm_compute; reflexivity. Qed.

(** C6 (amended): of the lines of a cache file that are no comment, a line
    the pattern refuses is reported and skipped; a line the pattern accepts
    with an empty name or an empty type token is skipped and not reported;
    a line with name and type token, not suppressed as an ADVANCED marker,
    whose type token is neither one of the seven of the table nor a property
    name of [Object.prototype], is reported, makes no entry and empties the
    accumulator.  In each case the loop goes on with the lines that
    follow. *)
Theorem C6_unparsable_lines (isTruthy : string -> bool) (content : string)
    (pre post : list string) (line : string) :
  cacheLines content = pre ++ line :: post ->
  Js.startsWith line "//" = false ->
  let before := foldl (parseLine isTruthy) parse_start pre in
  let after := parseLine isTruthy before line in
  parseCacheRun isTruthy content = foldl (parseLine isTruthy) after post /\
  (execEntry line = None ->
   entries after = entries before /\ docs_acc after = docs_acc before /\
   errors after = errors before ++
     [ {| message := "Failed to read a line from a CMake cache file";
          extra := Some line |} ]) /\
  (forall n t v, execEntry line = Some (n, t, v) -> n = "" \/ t = "" -> after = before) /\
  (forall n t v,
     execEntry line = Some (n, t, v) -> n <> "" -> t <> "" ->
     ~ (Js.endsWith n "-ADVANCED" = true /\ v = "1") ->
     t ∉ Text.typeTokens -> t ∉ objectPrototype ->
     entries after = entries before /\ docs_acc after = "" /\
     errors after = errors before ++
       [ {| message := "Cache entry '" +:+ n +:+ "' has unknown type: '" +:+ t +:+ "'";
            extra := None |} ]).
Proof.
  intros Hlines Hdoc before after.
  split; [unfold parseCacheRun; rewrite Hlines; apply parse_continues |].
  split.
  { intros Hnone. subst after. unfold parseLine. rewrite Hdoc, Hnone. auto. }
  split.
  { intros n t v Hexec Hempty. subst after. unfold parseLine. rewrite Hdoc, Hexec.
    destruct Hempty as [-> | ->]; [reflexivity |]. now destruct n. }
  intros n t v Hexec Hn Ht Hadv Hown Hproto. subst after.
  rewrite (parseLine_entry _ _ _ _ _ _ Hdoc Hexec Hn Ht).
  - rewrite (typemap_unknown _ Hown Hproto). auto.
  - destruct (Js.endsWith n "-ADVANCED"); [| reflexivity].
    destruct (String.eqb_spec v "1"); [| reflexivity]. exfalso. apply Hadv. auto.
Qed.

(** C6, at the file made of the lines [garbage] and [BAR:GARBAGE=x]: both
    are reported, none makes an entry. *)
Lemma C6_unparsable_lines_witness :
  let content := "garbage" +:+ Text.nl +:+ "BAR:GARBAGE=x" in
  parseCacheRun (fun _ => true) content =
  {| entries := ∅; docs_acc := "";
     errors :=
       [ {| message := "Failed to read a line from a CMake cache file";
            extra := Some "garbage" |};
         {| message := "Cache entry 'BAR' has unknown type: 'GARBAGE'";
            extra := None |} ] |}.
Proof.
  intros content.
  destruct (C6_unparsable_lines (fun _ => true) content [] ["BAR:GARBAGE=x"] "garbage"
              eq_refl eq_refl) as (Hrun & _).
  rewrite Hrun. reflexivity.
Defined.

(** C7: when no file exists at the path, [fromPath] resolves with a cache
    whose [exists] is false and whose entries are empty. *)
Theorem C7_missing_cache_file (isTruthy : string -> bool) (fs : FileSystem)
    (path : string) :
  fs_exists fs path = false ->
  fromPath isTruthy fs path =
  Resolved {| _path := path; _exists := false; _entries := ∅ |}.
Proof. intros Hex. unfold fromPath. rewrite Hex. reflexivity. Qed.

Lemma C7_missing_cache_file_witness :
  fromPath (fun _ => true)
    {| fs_exists := fun _ => false; fs_readFile := fun _ => Rejected "ENOENT" |}
    "build/CMakeCache.txt" =
  Resolved {| _path := "build/CMakeCache.txt"; _exists := false; _entries := ∅ |}.
Proof. apply C7_missing_cache_file. reflexivity. Defined.

(** C8: a line suppressed by the ADVANCED rule leaves the loop variables as
    they are.  So the documentation gathered from the comment lines before
    it (and from those after it) is still there for the entry line that
    follows: a line of a known type gets it, trimmed, as its help string; a
    line of an unknown type is reported; either empties the accumulator. *)
Theorem C8_suppressed_line_keeps_docs (isTruthy : string -> bool)
    (adv name typename : string) :
  Js.startsWith adv "//" = false ->
  execEntry adv = Some (name, typename, "1") ->
  name <> "" -> typename <> "" ->
  Js.endsWith name "-ADVANCED" = true ->
  (forall st, parseLine isTruthy st adv = st) /\
  (forall st docs more next key ty v,
     Forall (fun d => Js.startsWith d "//" = true) docs ->
     Forall (fun d => Js.startsWith d "//" = true) more ->
     Js.startsWith next "//" = false ->
     execEntry next = Some (key, ty, v) ->
     key <> "" -> ty <> "" ->
     Js.endsWith key "-ADVANCED" && String.eqb v "1" = false ->
     let st' := foldl (parseLine isTruthy) st (docs ++ adv :: more ++ [next]) in
     let help := Js.trim (docs_acc st +:+ Text.docText (docs ++ more)) in
     docs_acc st' = "" /\
     match typemap ty with
     | Some type =>
         entries st' !! key = Some (new_Entry isTruthy key v type help false) /\
         errors st' = errors st
     | None =>
         entries st' = entries st /\
         errors st' = errors st ++
           [ {| message := "Cache entry '" +:+ key +:+ "' has unknown type: '"
                           +:+ ty +:+ "'";
                extra := None |} ]
     end).
Proof.
  intros Hdoc Hexec Hn Ht Hadv.
  assert (Hskip : forall st, parseLine isTruthy st adv = st).
  { intros st. unfold parseLine. rewrite Hdoc, Hexec, Hadv.
    destruct name; [congruence |]. destruct typename; [congruence |]. reflexivity. }
  split; [exact Hskip |].
  intros st docs more next key ty v Hdocs Hmore Hnext Hexec' Hk Hty Hnadv st' help.
  assert (Hgone : st' = foldl (parseLine isTruthy) st ((docs ++ more) ++ [next])).
  { subst st'. rewrite (foldl_app _ docs). cbn [foldl]. rewrite Hskip.
    now rewrite <- foldl_app, app_assoc. }
  rewrite Hgone, foldl_app, (parse_docs _ _ _ (Forall_app_2 _ _ _ Hdocs Hmore)).
  simpl foldl. rewrite (parseLine_entry _ _ _ _ _ _ Hnext Hexec' Hk Hty Hnadv).
  destruct (typemap ty) as [type|]; simpl.
  - split; [reflexivity |]. split; [| reflexivity]. apply lookup_insert_eq.
  - auto.
Qed.

(** C8, at the lines [//Path to a program.], [X-ADVANCED:INTERNAL=1],
    [X:FILEPATH=/usr/bin/x]. *)
Lemma C8_suppressed_line_keeps_docs_witness :
  _docs <$> (parseCache (fun _ => true)
               ("//Path to a program." +:+ Text.nl +:+ "X-ADVANCED:INTERNAL=1" +:+ Text.nl
                +:+ "X:FILEPATH=/usr/bin/x") !! "X")
  = Some "Path to a program.".
Proof.
  destruct (C8_suppressed_line_keeps_docs (fun _ => true) "X-ADVANCED:INTERNAL=1"
              "X-ADVANCED" "INTERNAL" eq_refl eq_refl) as [_ Hnext];
    [discriminate | discriminate | reflexivity |].
  destruct (Hnext parse_start ["//Path to a program."] [] "X:FILEPATH=/usr/bin/x"
              "X" "FILEPATH" "/usr/bin/x") as (_ & Hentry & _);
    [repeat constructor | constructor | reflexivity | reflexivity | discriminate
    | discriminate | reflexivity |].
  unfold parseCache, parseCacheRun.
  change (cacheLines _)
    with (["//Path to a program."] ++ "X-ADVANCED:INTERNAL=1" :: [] ++ ["X:FILEPATH=/usr/bin/x"]).
  rewrite Hentry. reflexivity.
Defined.

End CacheFacts.

(** * The target list parser and the driver *)

Module LegacyFacts.
Import Proc Legacy.

(** ** [TargetListParser] *)

(** One line of a Makefile generator: a line that starts with three dots
    gives what follows its fourth character, up to the first space. *)
Lemma output_makefile (p : TargetListParser) (line : string) :
  Js.endsWith (generator p) "Makefiles" = true ->
  output line p =
  if Js.startsWith line "..." then push_targetName (Text.makefile_target line) p else p.
Proof.
  intros Hgen. simpl output. unfold TargetListParser_output. rewrite Hgen.
  destruct (Js.startsWith line "..."); [| reflexivity]. simpl negb. cbv iota.
  change 4 with (Z.of_nat 4). rewrite JsFacts.substr_drop.
  now rewrite (JsFacts.truncate_at_char (Text.drop 4 line) " ").
Qed.

Lemma parse_targets_makefile (g : string) (lines : list string) :
  Js.endsWith g "Makefiles" = true ->
  parse_targets g lines =
  Text.makefile_target <$> filter (fun l => Js.startsWith l "..." = true) lines.
Proof.
  intros Hgen. unfold parse_targets.
  assert (Hfold : forall p, generator p = g ->
            targetNames (foldl (fun p line => output line p) p lines) =
            targetNames p ++
            (Text.makefile_target <$> filter (fun l => Js.startsWith l "..." = true) lines)).
  { induction lines as [|l lines IH]; intros p Hp.
    - simpl. now rewrite app_nil_r.
    - simpl foldl. rewrite output_makefile by now rewrite Hp.
      rewrite filter_cons. destruct (Js.startsWith l "...") eqn:El.
      + rewrite decide_True by reflexivity. rewrite IH by exact Hp.
        unfold targetNames, push_targetName. simpl. now rewrite <- app_assoc.
      + rewrite decide_False by discriminate. now apply IH. }
  now rewrite Hfold.
Qed.

(** C4 (as stated it fails): of the three sample lines, the first and the
    third have two spaces after the dots, so their fifth character is a
    space and the name cut there is empty. *)
Lemma C4_two_spaces_give_empty_names :
  parse_targets "Unix Makefiles" ["...  all"; "... clean"; "...  my_target"]
  = [""; "clean"; ""].
Proof. vm_compute. reflexivity. Qed.

(** C4 (amended): for a generator whose name ends in [Makefiles], the lines
    [... all], [... clean], [... my_target], with one space after the dots,
    give the targets [all], [clean], [my_target] in that order; in general
    the targets are, in order, those of the lines that start with three
    dots, each being what follows the fourth character of its line, up to
    the first space. *)
Theorem C4_makefile_targets (g : string) :
  Js.endsWith g "Makefiles" = true ->
  parse_targets g ["... all"; "... clean"; "... my_target"] = ["all"; "clean"; "my_target"] /\
  forall lines,
    parse_targets g lines =
    Text.makefile_target <$> filter (fun l => Js.startsWith l "..." = true) lines.
Proof.
  intros Hgen. split.
  - rewrite (parse_targets_makefile _ _ Hgen). vm_compute. reflexivity.
  - intros lines. exact (parse_targets_makefile _ _ Hgen).
Qed.

Lemma C4_makefile_targets_witness :
  parse_targets "Unix Makefiles"
    ["The following are some of the valid targets for this Makefile:";
     "... all (the default if no target is provided)"; "... clean"; "... my_target"]
  = ["all"; "clean"; "my_target"].
Proof.
  destruct (C4_makefile_targets "Unix Makefiles" eq_refl) as [_ Hall].
  rewrite Hall. vm_compute. reflexivity.
Defined.

(** ** [LegacyCMakeDriver] *)

Section DriverFacts.
Context {Value : Type}.
Variable cmakeify : Value -> CMakeValue.t.
Variable normalizePath : string -> string.
Context {C : Type} `{OutputConsumer C}.

#[local] Abbreviation Heap := (Heap (Value := Value) (C := C)).

(** Target discovery starts one process and changes nothing of the driver
    but its targets. *)
Lemma refreshTargets_effect (w : World) (h : Heap) :
  let h' := snd (_refreshTargets w h) in
  spawned h' = spawned h ++ [Text.helpInvocation w (this h)] /\
  consumer h' = consumer h /\
  _kit (this h') = _kit (this h) /\
  _needsReconfigure (this h') = _needsReconfigure (this h) /\
  _buildType (this h') = _buildType (this h) /\
  _configArgs (this h') = _configArgs (this h) /\
  _linkage (this h') = _linkage (this h).
Proof.
  unfold _refreshTargets, executeCommand, log_spawn, read, await, update, throw.
  unfold mbind, M_bind, bind, ret. simpl.
  destruct (generatorName w) as [g|].
  - destruct (execute (help w) (Some (new_TargetListParser g))) as [r oc]. simpl.
    destruct r; simpl; auto 10.
  - destruct (execute (help w) (Some [])) as [r oc]. simpl.
    destruct oc as [[|c0 calls]|]; simpl; destruct r; simpl; auto 10.
Qed.

#[local] Arguments execute : simpl never.
#[local] Arguments settingArgs : simpl never.
#[local] Arguments kitArgs : simpl never.
#[local] Arguments _refreshTargets : simpl never.
#[local] Arguments String.append : simpl never.

(** A process that resolves has run and closed with the code it reports. *)
Lemma execute_resolved {C' : Type} `{OutputConsumer C'} (child : Child) (oc oc' : option C')
    (res : ExecutionResult) :
  execute child oc = (Resolved res, oc') -> exists events, child = Runs events (retc res).
Proof.
  unfold execute. destruct child as [err | events code]; [discriminate |].
  unfold on_close. intros [= <- _]. now exists events.
Qed.

Ltac unfold_ops :=
  unfold setKit, setVariantOptions, asyncDispose, configure, cleanConfigure, build,
    _init, _setBaseKit, executeCommand_consumer, executeCommand, log_spawn, read,
    read_consumer, write_consumer, await, update, throw, mbind, M_bind, bind,
    mret, M_ret, ret in *.

(** The ways [configure] can go. *)
Lemma configure_aborted (w : World) (h : Heap) :
  _beforeConfigure w = false ->
  configure cmakeify normalizePath w h = (Resolved (-1), h).
Proof. intros Hb. unfold configure. now rewrite Hb. Qed.

Lemma configure_no_kit (w : World) (h : Heap) :
  _beforeConfigure w = true -> _kit (this h) = None ->
  configure cmakeify normalizePath w h = (Rejected "No kit is set!", h).
Proof. intros Hb Hk. unfold_ops. rewrite Hb. simpl. now rewrite Hk. Qed.

Lemma configure_started (w : World) (h : Heap) (kit : Kit.t)
    (r : Settled ExecutionResult) (oc : option C) :
  _beforeConfigure w = true -> _kit (this h) = Some kit ->
  execute (tool w) (consumer h) = (r, oc) ->
  let inv := {| command := cmakePath w;
                args := Text.configureArgs cmakeify normalizePath w (this h) kit |} in
  let h1 := {| this := this h; consumer := oc; spawned := spawned h ++ [inv] |} in
  configure cmakeify normalizePath w h =
  match r with
  | Rejected err => (Rejected err, h1)
  | Resolved res =>
      let h2 := {| this := if retc res =? 0 then set_needsReconfigure false (this h)
                           else this h;
                   consumer := oc; spawned := spawned h ++ [inv] |} in
      match _reloadCMakeCache w with
      | Rejected err => (Rejected err, h2)
      | Resolved _ =>
          match _refreshTargets w h2 with
          | (Resolved _, h3) => (Resolved (retc res), h3)
          | (Rejected err, h3) => (Rejected err, h3)
          end
      end
  end.
Proof.
  intros Hb Hk Hexec inv h1. subst inv h1. unfold Text.configureArgs.
  unfold_ops. rewrite Hb. simpl. rewrite Hk. simpl. rewrite Hexec. simpl.
  assert (Hargs :
    ((((((if negb (exists_cachePath w) then ["-G" +:+ "Ninja"] else [])
         ++ settingArgs cmakeify (this h))
        ++ ["-DCMAKE_BUILD_TYPE:STRING=" +:+ _buildType (this h)])
       ++ kitArgs kit) ++ _cmakeFlags w)
     ++ ["-H" +:+ normalizePath (sourceDir w)])
    ++ ["-B" +:+ normalizePath (binaryDir w)]
    = (if exists_cachePath w then [] else ["-GNinja"])
      ++ settingArgs cmakeify (this h)
      ++ ["-DCMAKE_BUILD_TYPE:STRING=" +:+ _buildType (this h)]
      ++ kitArgs kit ++ _cmakeFlags w
      ++ ["-H" +:+ normalizePath (sourceDir w); "-B" +:+ normalizePath (binaryDir w)]).
  { rewrite <- !app_assoc. now destruct (exists_cachePath w). }
  rewrite Hargs. destruct r as [res | err]; [| reflexivity].
  destruct (retc res =? 0); simpl; destruct (_reloadCMakeCache w); reflexivity.
Qed.

(** The ways [build] can go. *)
Lemma build_aborted (target : string) (w : World) (h : Heap) :
  _beforeConfigure w = false -> build target w h = (Resolved None, h).
Proof. intros Hb. unfold build. now rewrite Hb. Qed.

Lemma build_started (target : string) (w : World) (h : Heap)
    (r : Settled ExecutionResult) (oc : option C) :
  _beforeConfigure w = true ->
  execute (tool w) (consumer h) = (r, oc) ->
  let inv := {| command := cmakePath w;
                args := Text.buildArgs w (this h) target
                        ++ generator_args (generatorName w) target (numJobs w) |} in
  let h1 := {| this := this h; consumer := oc; spawned := spawned h ++ [inv] |} in
  build target w h =
  match r with
  | Rejected err => (Rejected err, h1)
  | Resolved _ =>
      match _reloadCMakeCache w with
      | Rejected err => (Rejected err, h1)
      | Resolved _ =>
          match _refreshTargets w h1 with
          | (Resolved _, h2) => (Resolved (Some {| result := r |}), h2)
          | (Rejected err, h2) => (Rejected err, h2)
          end
      end
  end.
Proof.
  intros Hb Hexec inv h1. subst inv h1. unfold Text.buildArgs.
  unfold_ops. rewrite Hb. simpl. rewrite Hexec. simpl.
  destruct r as [res | err]; [| reflexivity].
  destruct (_reloadCMakeCache w); reflexivity.
Qed.

(** [setKit] sets the flag before anything can fail. *)
Lemma setKit_cases (kit : Kit.t) (w : World) (h : Heap) :
  let marked := set_needsReconfigure true (this h) in
  setKit kit w h =
  match (if _kitChangeNeedsClean w then rmdir_binaryDir w else Resolved tt) with
  | Rejected err =>
      (Rejected err, {| this := marked; consumer := consumer h; spawned := spawned h |})
  | Resolved _ =>
      (Resolved tt,
       {| this := set_kit (Some kit) marked; consumer := consumer h; spawned := spawned h |})
  end.
Proof.
  unfold_ops. simpl.
  destruct (_kitChangeNeedsClean w); [destruct (rmdir_binaryDir w) as [[]|] |]; reflexivity.
Qed.

(** The flag after each operation. *)
Lemma refreshTargets_flag (w : World) (h : Heap) :
  _needsReconfigure (this (snd (_refreshTargets w h))) = _needsReconfigure (this h).
Proof. apply (refreshTargets_effect w h). Qed.

Lemma refreshTargets_spawned (w : World) (h : Heap) :
  spawned (snd (_refreshTargets w h)) = spawned h ++ [Text.helpInvocation w (this h)].
Proof. apply (refreshTargets_effect w h). Qed.

Lemma configure_flag (w : World) (h : Heap) :
  let r := configure cmakeify normalizePath w h in
  let after := _needsReconfigure (this (snd r)) in
  (after = _needsReconfigure (this h) \/
   (after = false /\ _beforeConfigure w = true /\ exists events, tool w = Runs events 0)) /\
  (forall code, fst r = Resolved code ->
     after = if code =? 0 then false else _needsReconfigure (this h)).
Proof.
  intros r after. subst r after.
  destruct (_beforeConfigure w) eqn:Hb.
  2:{ rewrite (configure_aborted _ _ Hb). simpl. split; [now left |].
      now intros code [= <-]. }
  destruct (_kit (this h)) as [kit|] eqn:Hk.
  2:{ rewrite (configure_no_kit _ _ Hb Hk). simpl. split; [now left | discriminate]. }
  destruct (execute (tool w) (consumer h)) as [r oc] eqn:Hexec.
  rewrite (configure_started _ _ _ _ _ Hb Hk Hexec).
  destruct r as [res | err]; simpl.
  2:{ split; [now left | discriminate]. }
  destruct (execute_resolved _ _ _ _ Hexec) as [events Htool].
  match goal with
  | |- context [_refreshTargets w ?h2] =>
      pose proof (refreshTargets_flag w h2) as Hflag;
      destruct (_refreshTargets w h2) as [[[]|err] h3]
  end;
  simpl in Hflag;
  destruct (_reloadCMakeCache w) as [[]|err']; simpl;
  destruct (retc res =? 0) eqn:Hcode; simpl in *;
  try rewrite Hflag;
  (split;
   [ first [ now left
           | right; split; [reflexivity |]; split; [reflexivity |];
             apply Z.eqb_eq in Hcode; rewrite Hcode in Htool; now exists events ]
   | try discriminate; intros code [= <-]; now rewrite Hcode ]).
Qed.

(** A [configure] that gets as far as a tool that exits with 0 clears the
    flag, however the reload of the cache and the listing of the targets
    end. *)
Lemma configure_clears_flag (w : World) (h : Heap) (kit : Kit.t)
    (events : list ChildEvent) :
  _beforeConfigure w = true -> _kit (this h) = Some kit -> tool w = Runs events 0 ->
  _needsReconfigure (this (snd (configure cmakeify normalizePath w h))) = false.
Proof.
  intros Hb Hk Htool.
  destruct (execute (tool w) (consumer h)) as [r oc] eqn:Hexec.
  rewrite (configure_started _ _ _ _ _ Hb Hk Hexec).
  rewrite Htool in Hexec. unfold execute, on_close in Hexec.
  injection Hexec as <- _. cbn [retc]. change (0 =? 0) with true. cbv iota.
  destruct (_reloadCMakeCache w) as [[]|err]; [| reflexivity].
  match goal with
  | |- context [_refreshTargets w ?h2] =>
      pose proof (refreshTargets_flag w h2) as Hflag;
      destruct (_refreshTargets w h2) as [[[]|err] h3]
  end; simpl in Hflag; simpl; now rewrite Hflag.
Qed.

Lemma cleanConfigure_cases (w : World) (h : Heap) :
  (exists err, cleanConfigure cmakeify normalizePath w h = (Rejected err, h)) \/
  cleanConfigure cmakeify normalizePath w h = configure cmakeify normalizePath w h.
Proof.
  unfold cleanConfigure. unfold await, mbind, M_bind, bind, ret.
  destruct (clean_exists_cache w); [destruct (clean_unlink_cache w) as [[]|err] |];
    try (left; now exists err);
    (destruct (clean_exists_cmake_files w);
     [destruct (clean_rmdir_cmake_files w) as [[]|err'] |];
     try (left; now exists err'); now right).
Qed.

Lemma build_flag (target : string) (w : World) (h : Heap) :
  _needsReconfigure (this (snd (build target w h))) = _needsReconfigure (this h).
Proof.
  destruct (_beforeConfigure w) eqn:Hb; [| now rewrite (build_aborted _ _ _ Hb)].
  destruct (execute (tool w) (consumer h)) as [r oc] eqn:Hexec.
  rewrite (build_started _ _ _ _ _ Hb Hexec).
  destruct r as [res | err]; [| reflexivity].
  destruct (_reloadCMakeCache w) as [[]|err]; [| reflexivity].
  match goal with
  | |- context [_refreshTargets w ?h1] =>
      pose proof (refreshTargets_flag w h1) as Hflag;
      destruct (_refreshTargets w h1) as [[[]|err] h2]
  end; exact Hflag.
Qed.

Lemma setVariantOptions_flag (opts : Variant.VariantConfigurationOptions Value) (h : Heap) :
  _needsReconfigure (this (snd (setVariantOptions opts h))) = _needsReconfigure (this h).
Proof. reflexivity. Qed.

(** One operation clears the flag only if it is a configuration whose tool
    exits with 0. *)
Lemma perform_clears (op : Op) (w : World) (h : Heap) :
  _needsReconfigure (this h) = true ->
  _needsReconfigure (this (snd (perform cmakeify normalizePath op w h))) = false ->
  (op = Configure \/ op = CleanConfigure) /\ exists events, tool w = Runs events 0.
Proof.
  intros Hbefore Hafter.
  assert (Hconf : _needsReconfigure (this (snd (configure cmakeify normalizePath w h))) = false ->
                  exists events, tool w = Runs events 0).
  { intros Hc. destruct (configure_flag w h) as [[Hsame | (_ & _ & Hev)] _]; [| exact Hev].
    congruence. }
  destruct op as [kit | opts | | | | target]; unfold perform in Hafter;
    unfold mbind, M_bind, bind, ret in Hafter.
  - exfalso. rewrite setKit_cases in Hafter.
    destruct (if _kitChangeNeedsClean w then rmdir_binaryDir w else Resolved tt);
      discriminate Hafter.
  - exfalso. simpl in Hafter. congruence.
  - exfalso. simpl in Hafter. congruence.
  - split; [now left |]. apply Hconf.
    destruct (configure cmakeify normalizePath w h) as [[c|err] h']; exact Hafter.
  - split; [now right |].
    destruct (cleanConfigure_cases w h) as [[err Hrej] | Hsame].
    + rewrite Hrej in Hafter. simpl in Hafter. congruence.
    + apply Hconf. rewrite <- Hsame.
      destruct (cleanConfigure cmakeify normalizePath w h) as [[c|err] h']; exact Hafter.
  - exfalso. pose proof (build_flag target w h) as Hb.
    destruct (build target w h) as [[sub|err] h']; simpl in *; congruence.
Qed.

Lemma create_flag (w : World) :
  _needsReconfigure (this (snd (create (Value := Value) (C := C) w))) = true.
Proof.
  unfold create, _init. unfold await, update, mbind, M_bind, bind, ret. simpl.
  destruct (super_init w) as [k | err]; [| reflexivity]. simpl.
  destruct (exists_cachePath w); [| reflexivity].
  match goal with
  | |- context [_refreshTargets w ?h1] =>
      pose proof (refreshTargets_flag w h1) as Hflag;
      destruct (_refreshTargets w h1) as [[[]|err] h2]
  end; exact Hflag.
Qed.

Lemma perform_all_snoc (ops : list (Op * World)) (op : Op) (w : World) (h : Heap) :
  perform_all cmakeify normalizePath (ops ++ [(op, w)]) h =
  snd (perform cmakeify normalizePath op w (perform_all cmakeify normalizePath ops h)).
Proof. unfold perform_all. now rewrite foldl_app. Qed.

(** A sequence of operations clears the flag only if one of them is a
    configuration whose tool exits with 0. *)
Lemma perform_all_clears (ops : list (Op * World)) (h : Heap) :
  _needsReconfigure (this h) = true ->
  _needsReconfigure (this (perform_all cmakeify normalizePath ops h)) = false ->
  exists op w events,
    (op, w) ∈ ops /\ (op = Configure \/ op = CleanConfigure) /\ tool w = Runs events 0.
Proof.
  intros Hbefore. induction ops as [|[op w] ops IH] using rev_ind; intros Hafter.
  - simpl in Hafter. congruence.
  - rewrite perform_all_snoc in Hafter.
    destruct (_needsReconfigure (this (perform_all cmakeify normalizePath ops h))) eqn:Hmid.
    + destruct (perform_clears op w _ Hmid Hafter) as [Hop [events Htool]].
      exists op, w, events. split; [| auto]. apply elem_of_app. right. left.
    + destruct (IH eq_refl) as (op' & w' & events & Hin & Hop & Htool).
      exists op', w', events. split; [| auto]. apply elem_of_app. now left.
Qed.

End DriverFacts.

(** ** Properties of the driver *)

(** C2 (fails on the code): the argument [configure] builds for a setting
    has no [-D] in front.  For the setting [FOO = bar] the tool is started
    with [FOO:STRING=bar]; [-DFOO:STRING=bar] is not among the arguments,
    while the build type and the compiler do get their [-D]. *)
Theorem C2_setting_argument_without_D :
  let h' := snd (configure Sample.cmakeify id Sample.world Sample.heap) in
  spawned h' =
  [ {| command := "cmake";
       args := ["-GNinja"; "FOO:STRING=bar"; "-DCMAKE_BUILD_TYPE:STRING=Debug";
                "-DCMAKE_CXX_COMPILER:FILEPATH=g++"; "-H/p"; "-B/p/build"] |};
    {| command := "cmake";
       args := ["--build"; "/p/build"; "--config"; "Debug"; "--target"; "help"] |} ] /\
  forall inv, inv ∈ spawned h' -> "-DFOO:STRING=bar" ∉ args inv.
Proof.
  assert (Hrun : spawned (snd (configure Sample.cmakeify id Sample.world Sample.heap)) =
    [ {| command := "cmake";
         args := ["-GNinja"; "FOO:STRING=bar"; "-DCMAKE_BUILD_TYPE:STRING=Debug";
                  "-DCMAKE_CXX_COMPILER:FILEPATH=g++"; "-H/p"; "-B/p/build"] |};
      {| command := "cmake";
         args := ["--build"; "/p/build"; "--config"; "Debug"; "--target"; "help"] |} ])
    by (vm_compute; reflexivity).
  split; [exact Hrun |].
  intros inv Hin. rewrite Hrun in Hin.
  repeat (apply elem_of_cons in Hin as [-> | Hin]);
    [ | | now apply elem_of_nil in Hin ];
    simpl; intros Harg;
    repeat (apply elem_of_cons in Harg as [Harg | Harg]; [discriminate Harg |]);
    now apply elem_of_nil in Harg.
Qed.

(** Whatever the settings, each of them gives the argument
    [key:type=value], and these stand between the generator and the build
    type. *)
Lemma configure_arguments {Value C : Type} `{OutputConsumer C}
    (cmakeify : Value -> CMakeValue.t) (normalizePath : string -> string)
    (w : World) (h : Heap (Value := Value) (C := C)) (kit : Kit.t) :
  _beforeConfigure w = true -> _kit (this h) = Some kit ->
  spawned (snd (configure cmakeify normalizePath w h)) !! length (spawned h) =
  Some {| command := cmakePath w;
          args := Text.configureArgs cmakeify normalizePath w (this h) kit |}.
Proof.
  intros Hb Hk.
  destruct (execute (tool w) (consumer h)) as [r oc] eqn:Hexec.
  rewrite (configure_started _ _ _ _ _ _ _ Hb Hk Hexec).
  destruct r as [res | err]; simpl.
  2:{ now rewrite lookup_app_r, Nat.sub_diag by lia. }
  destruct (_reloadCMakeCache w) as [[]|err]; simpl.
  2:{ now rewrite lookup_app_r, Nat.sub_diag by lia. }
  match goal with
  | |- context [_refreshTargets w ?h2] =>
      pose proof (refreshTargets_spawned w h2) as Hsp;
      destruct (_refreshTargets w h2) as [[[]|err] h3]
  end; simpl in *; rewrite Hsp;
  rewrite lookup_app_l by (rewrite length_app; simpl; lia);
  now rewrite lookup_app_r, Nat.sub_diag by lia.
Qed.

(** C3 (as stated it fails): the target [clean] gets no parallelism flag,
    though the generator is Ninja. *)
Lemma C3_clean_gets_no_parallelism :
  generatorName Sample.world = Some "Ninja" /\
  spawned (snd (build "clean" Sample.world Sample.heap)) =
  [ {| command := "cmake";
       args := ["--build"; "/p/build"; "--config"; "Debug"; "--target"; "clean"; "--"] |};
    {| command := "cmake";
       args := ["--build"; "/p/build"; "--config"; "Debug"; "--target"; "help"] |} ].
Proof. split; vm_compute; reflexivity. Qed.

(** The generators the first test of [build] accepts. *)
Lemma testMakefilesNinja_spec (gen : string) :
  testMakefilesNinja gen = true <->
  exists pre post,
    gen = pre +:+ "Unix Makefiles" +:+ post \/
    gen = pre +:+ "MinGW Makefiles" +:+ post \/
    gen = pre +:+ "Ninja" +:+ post.
Proof.
  unfold testMakefilesNinja. rewrite !orb_true_iff, !JsFacts.includes_spec. split.
  - intros [[(pre & post & Hg) | (pre & post & Hg)] | (pre & post & Hg)];
      exists pre, post; auto.
  - intros (pre & post & [Hg | [Hg | Hg]]); eauto.
Qed.

(** C3 (amended): when the checks before a build pass, [build] starts the
    tool with [--build binaryDir --config buildType --target target --]
    and then: [-j numJobs] when the generator name holds [Unix Makefiles],
    [MinGW Makefiles] or [Ninja] and the target is not [clean]; otherwise
    the two full-path flags when the name holds [Visual Studio]; otherwise
    nothing, as for an unknown generator. *)
Theorem C3_build_generator_flags {Value C : Type} `{OutputConsumer C}
    (target : string) (w : World) (h : Heap (Value := Value) (C := C)) :
  _beforeConfigure w = true ->
  exists extra,
    spawned (snd (build target w h)) !! length (spawned h) =
    Some {| command := cmakePath w; args := Text.buildArgs w (this h) target ++ extra |} /\
    (generatorName w = None -> extra = []) /\
    (forall gen, generatorName w = Some gen ->
       (testMakefilesNinja gen = true -> target <> "clean" ->
        extra = ["-j"; toString (numJobs w)]) /\
       (testMakefilesNinja gen = false \/ target = "clean" ->
        Js.includes gen "Visual Studio" = true ->
        extra = ["/m"; "/property:GenerateFullPaths=true"]) /\
       (testMakefilesNinja gen = false \/ target = "clean" ->
        Js.includes gen "Visual Studio" = false ->
        extra = [])).
Proof.
  intros Hb. exists (generator_args (generatorName w) target (numJobs w)). split.
  - destruct (execute (tool w) (consumer h)) as [r oc] eqn:Hexec.
    rewrite (build_started _ _ _ _ _ Hb Hexec).
    destruct r as [res | err]; simpl.
    2:{ now rewrite lookup_app_r, Nat.sub_diag by lia. }
    destruct (_reloadCMakeCache w) as [[]|err]; simpl.
    2:{ now rewrite lookup_app_r, Nat.sub_diag by lia. }
    match goal with
    | |- context [_refreshTargets w ?h2] =>
        pose proof (refreshTargets_spawned w h2) as Hsp;
        destruct (_refreshTargets w h2) as [[[]|err] h3]
    end; simpl in *; rewrite Hsp;
    rewrite lookup_app_l by (rewrite length_app; simpl; lia);
    now rewrite lookup_app_r, Nat.sub_diag by lia.
  - split; [now intros -> |].
    intros gen ->. unfold generator_args.
    assert (Hclean : String.eqb target "clean" = true <-> target = "clean")
      by apply String.eqb_eq.
    assert (Hempty : Js.truthy gen = false ->
              testMakefilesNinja gen = false /\ Js.includes gen "Visual Studio" = false).
    { destruct gen; [split; reflexivity | discriminate]. }
    destruct (Js.truthy gen) eqn:Etruthy.
    + clear Hempty.
      destruct (testMakefilesNinja gen) eqn:Emk;
        destruct (String.eqb target "clean") eqn:Ecl;
        destruct (Js.includes gen "Visual Studio") eqn:Evs;
        cbn [negb andb];
        (split; [| split]); intros; try reflexivity; try discriminate;
        exfalso; intuition congruence.
    + destruct (Hempty eq_refl) as [-> ->]. cbn [negb].
      (split; [| split]); intros; try reflexivity; discriminate.
Qed.

Lemma C3_build_generator_flags_witness :
  exists extra,
    spawned (snd (build "all" Sample.world Sample.heap)) !! 0%nat =
    Some {| command := "cmake";
            args := ["--build"; "/p/build"; "--config"; "Debug"; "--target"; "all"; "--"]
                    ++ extra |} /\
    extra = ["-j"; "4"].
Proof.
  destruct (C3_build_generator_flags "all" Sample.world Sample.heap eq_refl)
    as (extra & Hinv & _ & Hgen).
  destruct (Hgen "Ninja" eq_refl) as (Hj & _).
  exists extra. split; [exact Hinv |]. apply Hj; [reflexivity | discriminate].
Defined.

(** C5 (as stated it fails): a [configure] that returns a code other than
    0 leaves the flag as it was, which need not be set.  After a
    [configure] whose tool exits with 0 the flag is clear; a second
    [configure] whose tool exits with 1, or whose checks fail, then returns
    1, or -1, and the flag is still clear. *)
Lemma C5_failed_configure_after_success :
  needsReconfigure (this Sample.heap) = true /\
  fst (perform Sample.cmakeify id Configure Sample.world Sample.heap) = Resolved (Some 0) /\
  needsReconfigure
    (this (perform_all Sample.cmakeify id [(Configure, Sample.world)] Sample.heap)) = false /\
  fst (perform Sample.cmakeify id Configure Sample.world_tool_fails
         (perform_all Sample.cmakeify id [(Configure, Sample.world)] Sample.heap))
  = Resolved (Some 1) /\
  needsReconfigure
    (this (perform_all Sample.cmakeify id
             [(Configure, Sample.world); (Configure, Sample.world_tool_fails)] Sample.heap))
  = false /\
  fst (perform Sample.cmakeify id Configure Sample.world_checks_fail
         (perform_all Sample.cmakeify id [(Configure, Sample.world)] Sample.heap))
  = Resolved (Some (-1)) /\
  needsReconfigure
    (this (perform_all Sample.cmakeify id
             [(Configure, Sample.world); (Configure, Sample.world_checks_fail)] Sample.heap))
  = false.
Proof. repeat split; vm_compute; reflexivity. Qed.

(** C5: the flag is set in a new driver and after [create]; every [setKit]
    sets it, whether it resolves or rejects; an operation, and so a
    sequence of operations, clears it only if it is a [configure] (or a
    [cleanConfigure], which ends in one) whose tool exits with 0; a
    [configure] that returns a code other than 0, as the -1 of the failed
    checks, leaves the flag as it was: a flag that was set is still set,
    and a flag that an earlier [configure] cleared is still clear; one that
    returns 0 clears it, and so does every [configure] whose checks pass,
    with a kit set, whose tool exits with 0, however the reload of the
    cache and the listing of the targets end. *)
Theorem C5_needsReconfigure {Value C : Type} `{OutputConsumer C}
    (cmakeify : Value -> CMakeValue.t) (normalizePath : string -> string) :
  needsReconfigure (new_LegacyCMakeDriver (Value := Value)) = true /\
  (forall w, needsReconfigure (this (snd (create (Value := Value) (C := C) w))) = true) /\
  (forall kit w (h : Heap (Value := Value) (C := C)),
     needsReconfigure (this (snd (setKit kit w h))) = true) /\
  (forall op w (h : Heap (Value := Value) (C := C)),
     needsReconfigure (this h) = true ->
     needsReconfigure (this (snd (perform cmakeify normalizePath op w h))) = false ->
     (op = Configure \/ op = CleanConfigure) /\ exists events, tool w = Runs events 0) /\
  (forall ops (h : Heap (Value := Value) (C := C)),
     needsReconfigure (this h) = true ->
     needsReconfigure (this (perform_all cmakeify normalizePath ops h)) = false ->
     exists op w events,
       (op, w) ∈ ops /\ (op = Configure \/ op = CleanConfigure) /\ tool w = Runs events 0) /\
  (forall w (h : Heap (Value := Value) (C := C)) code,
     fst (configure cmakeify normalizePath w h) = Resolved code ->
     code <> 0 ->
     needsReconfigure (this (snd (configure cmakeify normalizePath w h))) =
     needsReconfigure (this h)) /\
  (forall w (h : Heap (Value := Value) (C := C)) code,
     fst (configure cmakeify normalizePath w h) = Resolved code ->
     code <> 0 ->
     needsReconfigure (this h) = true ->
     needsReconfigure (this (snd (configure cmakeify normalizePath w h))) = true) /\
  (forall w (h : Heap (Value := Value) (C := C)),
     _beforeConfigure w = false ->
     configure cmakeify normalizePath w h = (Resolved (-1), h)) /\
  (forall w (h : Heap (Value := Value) (C := C)),
     fst (configure cmakeify normalizePath w h) = Resolved 0 ->
     needsReconfigure (this (snd (configure cmakeify normalizePath w h))) = false) /\
  (forall w (h : Heap (Value := Value) (C := C)) kit events,
     _beforeConfigure w = true -> _kit (this h) = Some kit -> tool w = Runs events 0 ->
     needsReconfigure (this (snd (configure cmakeify normalizePath w h))) = false).
Proof.
  unfold needsReconfigure. split; [reflexivity |].
  split; [apply create_flag |].
  split.
  { intros kit w h. rewrite setKit_cases.
    now destruct (if _kitChangeNeedsClean w then rmdir_binaryDir w else Resolved tt). }
  split; [apply perform_clears |].
  split; [apply perform_all_clears |].
  assert (Hsame : forall w (h : Heap (Value := Value) (C := C)) code,
            fst (configure cmakeify normalizePath w h) = Resolved code ->
            code <> 0 ->
            _needsReconfigure (this (snd (configure cmakeify normalizePath w h))) =
            _needsReconfigure (this h)).
  { intros w h code Hres Hcode.
    destruct (configure_flag cmakeify normalizePath w h) as [_ Hret].
    rewrite (Hret code Hres). apply Z.eqb_neq in Hcode. now rewrite Hcode. }
  split; [exact Hsame |].
  split. { intros w h code Hres Hcode Hset. now rewrite (Hsame w h code Hres Hcode). }
  split; [apply configure_aborted |].
  split.
  { intros w h Hres.
    destruct (configure_flag cmakeify normalizePath w h) as [_ Hret].
    now rewrite (Hret 0 Hres). }
  intros w h kit events. apply configure_clears_flag.
Qed.

(** C9: when the binary directory must be removed and the removal fails,
    [setKit] rejects with that error; the flag is set all the same, the kit
    is the one the driver had, and nothing else has changed. *)
Theorem C9_setKit_rmdir_fails {Value C : Type} `{OutputConsumer C}
    (kit : Kit.t) (w : World) (h : Heap (Value := Value) (C := C)) (err : string) :
  _kitChangeNeedsClean w = true ->
  rmdir_binaryDir w = Rejected err ->
  let r := setKit kit w h in
  fst r = Rejected err /\
  needsReconfigure (this (snd r)) = true /\
  _kit (this (snd r)) = _kit (this h) /\
  snd r = {| this := set_needsReconfigure true (this h);
             consumer := consumer h; spawned := spawned h |}.
Proof.
  intros Hclean Hrm r. subst r. rewrite setKit_cases, Hclean, Hrm. simpl. auto.
Qed.

Lemma C9_setKit_rmdir_fails_witness :
  let r := setKit {| Kit.name := "VS"; Kit.type := "vsKit"; Kit.compilers := [] |}
             Sample.world_rmdir_fails Sample.heap in
  fst r = Rejected "EBUSY" /\
  needsReconfigure (this (snd r)) = true /\
  _kit (this (snd r)) = Some Sample.kit.
Proof.
  destruct (C9_setKit_rmdir_fails
              {| Kit.name := "VS"; Kit.type := "vsKit"; Kit.compilers := [] |}
              Sample.world_rmdir_fails Sample.heap "EBUSY" eq_refl eq_refl)
    as (Hr & Hflag & Hkit & _).
  split; [exact Hr |]. split; [exact Hflag | exact Hkit].
Defined.

(** C10: [setVariantOptions] resolves; a build type that is empty or left
    out, a linkage left out and settings left out leave the stored build
    type, linkage and settings as they were, while a field that is given
    replaces the stored one; the kit, the flag, the targets, the consumer
    and the processes started are as before. *)
Theorem C10_setVariantOptions {Value C : Type} `{OutputConsumer C}
    (opts : Variant.VariantConfigurationOptions Value)
    (h : Heap (Value := Value) (C := C)) :
  let r := setVariantOptions opts h in
  fst r = Resolved tt /\
  (Variant.buildType opts = Some "" \/ Variant.buildType opts = None ->
   _buildType (this (snd r)) = _buildType (this h)) /\
  (forall b, Variant.buildType opts = Some b -> b <> "" -> _buildType (this (snd r)) = b) /\
  (Variant.linkage opts = None -> _linkage (this (snd r)) = _linkage (this h)) /\
  (forall l, Variant.linkage opts = Some l -> _linkage (this (snd r)) = l) /\
  (Variant.settings opts = None -> _configArgs (this (snd r)) = _configArgs (this h)) /\
  (forall ss, Variant.settings opts = Some ss -> _configArgs (this (snd r)) = ss) /\
  _kit (this (snd r)) = _kit (this h) /\
  _needsReconfigure (this (snd r)) = _needsReconfigure (this h) /\
  _targets (this (snd r)) = _targets (this h) /\
  consumer (snd r) = consumer h /\
  spawned (snd r) = spawned h.
Proof.
  simpl. split; [reflexivity |].
  split. { intros [-> | ->]; reflexivity. }
  split. { intros b -> Hb. destruct b; [congruence | reflexivity]. }
  split. { now intros ->. }
  split. { now intros l ->. }
  split. { now intros ->. }
  split. { now intros ss ->. }
  auto.
Qed.

End LegacyFacts.

(** * More about [execute] *)

Module ProcExtra.
Import Proc.

#[local] Arguments String.append !s1 s2 : simpl nomatch.

Section Generic.
Context {C : Type} `{OutputConsumer C}.

Lemma foldl_fmap_Some (emit : string -> C -> C) (ls : list string) (c : C) :
  foldl (fun o l => emit l <$> o) (Some c) ls = Some (foldl (fun c l => emit l c) c ls).
Proof. revert c. induction ls as [|l ls IH]; intros c; [reflexivity | apply IH]. Qed.

Lemma foldl_fmap_None (emit : string -> C -> C) (ls : list string) :
  foldl (fun o l => emit l <$> o) (None : option C) ls = None.
Proof. induction ls as [|l ls IH]; [reflexivity | exact IH]. Qed.

(** What a chunk of stdout does to the state. *)
Lemma on_stdout_data_effect (str : string) (st : ExecState C) :
  let pieces := Text.glue (line_acc st) (stripCR <$> Js.split Js.LF str) in
  let st' := on_stdout_data str st in
  outputConsumer st' = foldl (fun o l => output l <$> o) (outputConsumer st) (removelast pieces) /\
  line_acc st' = List.last pieces "" /\
  stdout_acc st' = stdout_acc st +:+ str /\
  stderr_acc st' = stderr_acc st /\
  stderr_line_acc st' = stderr_line_acc st.
Proof.
  intros pieces st'. subst st'. unfold on_stdout_data.
  pose proof (ProcFacts.drain_glue output (stripCR <$> Js.split Js.LF str) (line_acc st)
                (outputConsumer st)) as Hd.
  destruct (drain output (stripCR <$> Js.split Js.LF str) (line_acc st) (outputConsumer st))
    as [[rest acc'] oc'].
  destruct Hd as [Hacc Hout]. simpl. auto.
Qed.

(** What a chunk of stderr does to the state. *)
Lemma on_stderr_data_effect (str : string) (st : ExecState C) :
  let pieces := Text.glue (stderr_line_acc st) (stripCR <$> Js.split Js.LF str) in
  let st' := on_stderr_data str st in
  outputConsumer st' = foldl (fun o l => error l <$> o) (outputConsumer st) (removelast pieces) /\
  stderr_line_acc st' = List.last pieces "" /\
  stderr_acc st' = stderr_acc st +:+ str /\
  stdout_acc st' = stdout_acc st /\
  line_acc st' = line_acc st.
Proof.
  intros pieces st'. subst st'. unfold on_stderr_data.
  pose proof (ProcFacts.drain_glue error (stripCR <$> Js.split Js.LF str) (stderr_line_acc st)
                (outputConsumer st)) as Hd.
  destruct (drain error (stripCR <$> Js.split Js.LF str) (stderr_line_acc st)
              (outputConsumer st)) as [[rest acc'] oc'].
  destruct Hd as [Hacc Hout]. simpl. auto.
Qed.

Lemma handle_accs (events : list ChildEvent) (st : ExecState C) :
  let st' := foldl Text.handle st events in
  stdout_acc st' = stdout_acc st +:+ Text.concat (Text.stdoutChunks events) /\
  stderr_acc st' = stderr_acc st +:+ Text.concat (Text.stderrChunks events).
Proof.
  revert st. induction events as [|ev events IH]; intros st.
  - simpl. now rewrite !JsFacts.append_empty_r.
  - simpl foldl. destruct (IH (Text.handle st ev)) as [Hout Herr]. cbv zeta.
    rewrite Hout, Herr. destruct ev as [str | str]; simpl Text.handle.
    + destruct (on_stdout_data_effect str st) as (_ & _ & -> & -> & _).
      simpl. now rewrite JsFacts.append_assoc.
    + destruct (on_stderr_data_effect str st) as (_ & _ & -> & -> & _).
      simpl. now rewrite JsFacts.append_assoc.
Qed.

Lemma replay_app (a b : list Call) (c : C) :
  Text.replay (a ++ b) c = Text.replay b (Text.replay a c).
Proof. unfold Text.replay. now rewrite foldl_app. Qed.

Lemma replay_outputs (ls : list string) (c : C) :
  Text.replay (Output <$> ls) c = foldl (fun c l => output l c) c ls.
Proof. revert c. induction ls as [|l ls IH]; intros c; [reflexivity | apply IH]. Qed.

Lemma replay_errors (ls : list string) (c : C) :
  Text.replay (Error <$> ls) c = foldl (fun c l => error l c) c ls.
Proof. revert c. induction ls as [|l ls IH]; intros c; [reflexivity | apply IH]. Qed.

End Generic.

Lemma recorder_outputs (ls : list string) (calls : list Call) :
  foldl (fun c l => output l c) calls ls = calls ++ (Output <$> ls).
Proof.
  revert calls. induction ls as [|l ls IH]; intros calls; simpl.
  - now rewrite app_nil_r.
  - rewrite IH. now rewrite <- app_assoc.
Qed.

Lemma recorder_errors (ls : list string) (calls : list Call) :
  foldl (fun c l => error l c) calls ls = calls ++ (Error <$> ls).
Proof.
  revert calls. induction ls as [|l ls IH]; intros calls; simpl.
  - now rewrite app_nil_r.
  - rewrite IH. now rewrite <- app_assoc.
Qed.

Section Simulation.
Context {C : Type} `{OutputConsumer C}.

(** Step by step, a consumer is where the calls a recorder has noted would
    bring it. *)
Lemma handle_simulation (events : list ChildEvent) :
  forall (st : ExecState C) (sr : ExecState (list Call)) (c : C) (calls : list Call),
    line_acc st = line_acc sr -> stderr_line_acc st = stderr_line_acc sr ->
    outputConsumer st = Some c -> outputConsumer sr = Some calls ->
    let st' := foldl Text.handle st events in
    let sr' := foldl Text.handle sr events in
    line_acc st' = line_acc sr' /\ stderr_line_acc st' = stderr_line_acc sr' /\
    exists new,
      outputConsumer sr' = Some (calls ++ new) /\
      outputConsumer st' = Some (Text.replay new c).
Proof.
  induction events as [|ev events IH]; intros st sr c calls Hl He Hc Hr.
  - simpl. split; [exact Hl |]. split; [exact He |]. exists []. now rewrite app_nil_r.
  - simpl foldl. destruct ev as [str | str]; simpl Text.handle.
    + destruct (on_stdout_data_effect str st) as (Hc1 & Hl1 & _ & _ & He1).
      destruct (on_stdout_data_effect str sr) as (Hr1 & Hl2 & _ & _ & He2).
      rewrite Hc, foldl_fmap_Some, Hl in Hc1.
      rewrite Hr, foldl_fmap_Some, recorder_outputs in Hr1.
      rewrite Hl in Hl1. rewrite <- Hl2 in Hl1. rewrite He, <- He2 in He1.
      destruct (IH _ _ _ _ Hl1 He1 Hc1 Hr1) as (Hl' & He' & new & Hr' & Hc').
      split; [exact Hl' |]. split; [exact He' |].
      eexists (_ ++ new). rewrite app_assoc. split; [exact Hr' |].
      now rewrite Hc', replay_app, replay_outputs.
    + destruct (on_stderr_data_effect str st) as (Hc1 & He1 & _ & _ & Hl1).
      destruct (on_stderr_data_effect str sr) as (Hr1 & He2 & _ & _ & Hl2).
      rewrite Hc, foldl_fmap_Some, He in Hc1.
      rewrite Hr, foldl_fmap_Some, recorder_errors in Hr1.
      rewrite He in He1. rewrite <- He2 in He1. rewrite Hl, <- Hl2 in Hl1.
      destruct (IH _ _ _ _ Hl1 He1 Hc1 Hr1) as (Hl' & He' & new & Hr' & Hc').
      split; [exact Hl' |]. split; [exact He' |].
      eexists (_ ++ new). rewrite app_assoc. split; [exact Hr' |].
      now rewrite Hc', replay_app, replay_errors.
Qed.

End Simulation.

(** ** The calls of a run *)

Lemma execute_Runs {C : Type} `{OutputConsumer C} (events : list ChildEvent) (code : Z)
    (oc : option C) :
  execute (Runs events code) oc =
  (Resolved (fst (on_close code (foldl Text.handle (start oc) events))),
   snd (on_close code (foldl Text.handle (start oc) events))).
Proof. reflexivity. Qed.

Lemma outputLines_app (a b : list Call) :
  Text.outputLines (a ++ b) = Text.outputLines a ++ Text.outputLines b.
Proof. apply omap_app. Qed.

Lemma errorLines_app (a b : list Call) :
  Text.errorLines (a ++ b) = Text.errorLines a ++ Text.errorLines b.
Proof. apply omap_app. Qed.

Lemma outputLines_outputs (ls : list string) :
  Text.outputLines (Output <$> ls) = ls /\ Text.errorLines (Output <$> ls) = [].
Proof.
  induction ls as [|l ls [IH1 IH2]]; [auto |].
  change (Text.outputLines (Output <$> l :: ls)) with (l :: Text.outputLines (Output <$> ls)).
  change (Text.errorLines (Output <$> l :: ls)) with (Text.errorLines (Output <$> ls)).
  now rewrite IH1, IH2.
Qed.

Lemma errorLines_errors (ls : list string) :
  Text.errorLines (Error <$> ls) = ls /\ Text.outputLines (Error <$> ls) = [].
Proof.
  induction ls as [|l ls [IH1 IH2]]; [auto |].
  change (Text.errorLines (Error <$> l :: ls)) with (l :: Text.errorLines (Error <$> ls)).
  change (Text.outputLines (Error <$> l :: ls)) with (Text.outputLines (Error <$> ls)).
  now rewrite IH1, IH2.
Qed.

Lemma only_outputs (calls : list Call) :
  Text.errorLines calls = [] -> calls = Output <$> Text.outputLines calls.
Proof.
  induction calls as [|[l | l] calls IH]; [reflexivity | | discriminate].
  intros Hno.
  change (Output l :: calls = Output l :: (Output <$> Text.outputLines calls)).
  f_equal. now apply IH.
Qed.

Lemma only_errors (calls : list Call) :
  Text.outputLines calls = [] -> calls = Error <$> Text.errorLines calls.
Proof.
  induction calls as [|[l | l] calls IH]; [reflexivity | discriminate |].
  intros Hno.
  change (Error l :: calls = Error l :: (Error <$> Text.errorLines calls)).
  f_equal. now apply IH.
Qed.

(** The calls a recorder notes, stream by stream. *)
Lemma handle_trace (events : list ChildEvent) :
  forall (sr : ExecState (list Call)) (calls : list Call),
    outputConsumer sr = Some calls ->
    let sr' := foldl Text.handle sr events in
    exists new,
      outputConsumer sr' = Some (calls ++ new) /\
      Text.outputLines new = fst (Text.stream (line_acc sr) (Text.stdoutChunks events)) /\
      Text.errorLines new = fst (Text.stream (stderr_line_acc sr) (Text.stderrChunks events)) /\
      line_acc sr' = snd (Text.stream (line_acc sr) (Text.stdoutChunks events)) /\
      stderr_line_acc sr' = snd (Text.stream (stderr_line_acc sr) (Text.stderrChunks events)).
Proof.
  induction events as [|ev events IH]; intros sr calls Hr.
  - exists []. simpl. rewrite app_nil_r. auto.
  - simpl foldl. destruct ev as [str | str]; simpl Text.handle.
    + destruct (on_stdout_data_effect str sr) as (Hr1 & Hl1 & _ & _ & He1).
      rewrite Hr, foldl_fmap_Some, recorder_outputs in Hr1.
      destruct (IH _ _ Hr1) as (new & Hc & Ho & Herr & Hl & He).
      rewrite Hl1 in Ho, Hl. rewrite He1 in Herr, He.
      change (Text.stdoutChunks (StdoutData str :: events))
        with (str :: Text.stdoutChunks events).
      change (Text.stderrChunks (StdoutData str :: events)) with (Text.stderrChunks events).
      cbn [Text.stream].
      destruct (Text.stream _ (Text.stdoutChunks events)) as [ls p].
      eexists (_ ++ new). rewrite app_assoc. split; [exact Hc |].
      rewrite outputLines_app, errorLines_app.
      destruct (outputLines_outputs
                  (removelast (Text.glue (line_acc sr) (stripCR <$> Js.split Js.LF str))))
        as [-> ->].
      simpl in *. rewrite Ho. auto.
    + destruct (on_stderr_data_effect str sr) as (Hr1 & He1 & _ & _ & Hl1).
      rewrite Hr, foldl_fmap_Some, recorder_errors in Hr1.
      destruct (IH _ _ Hr1) as (new & Hc & Ho & Herr & Hl & He).
      rewrite Hl1 in Ho, Hl. rewrite He1 in Herr, He.
      change (Text.stderrChunks (StderrData str :: events))
        with (str :: Text.stderrChunks events).
      change (Text.stdoutChunks (StderrData str :: events)) with (Text.stdoutChunks events).
      cbn [Text.stream].
      destruct (Text.stream _ (Text.stderrChunks events)) as [ls p].
      eexists (_ ++ new). rewrite app_assoc. split; [exact Hc |].
      rewrite outputLines_app, errorLines_app.
      destruct (errorLines_errors
                  (removelast (Text.glue (stderr_line_acc sr) (stripCR <$> Js.split Js.LF str))))
        as [-> ->].
      simpl in *. rewrite Herr. auto.
Qed.

(** The calls of a whole run: those of the chunks, then the partial lines
    when the child closes, stdout first. *)
Lemma execute_trace (events : list ChildEvent) (code : Z) :
  exists calls,
    snd (execute (Runs events code) (Some [])) = Some calls /\
    Text.outputLines calls =
      fst (Text.stream "" (Text.stdoutChunks events))
      ++ Text.flush (snd (Text.stream "" (Text.stdoutChunks events))) /\
    Text.errorLines calls =
      fst (Text.stream "" (Text.stderrChunks events))
      ++ Text.flush (snd (Text.stream "" (Text.stderrChunks events))).
Proof.
  rewrite execute_Runs.
  destruct (handle_trace events (start (Some [])) [] eq_refl)
    as (new & Hc & Ho & Herr & Hl & He).
  simpl in Hc, Ho, Herr, Hl, He. unfold on_close. rewrite Hc, Hl, He. simpl snd.
  unfold Text.flush.
  destruct (Js.truthy (snd (Text.stream "" (Text.stdoutChunks events))));
    destruct (Js.truthy (snd (Text.stream "" (Text.stderrChunks events)))); simpl;
    eexists; (split; [reflexivity |]);
    rewrite ?outputLines_app, ?errorLines_app, Ho, Herr; simpl;
    rewrite ?app_nil_r; auto.
Qed.

Lemma stdoutChunks_stdout (chunks : list string) :
  Text.stdoutChunks (StdoutData <$> chunks) = chunks /\
  Text.stderrChunks (StdoutData <$> chunks) = [].
Proof.
  induction chunks as [|ch chunks [IH1 IH2]]; [auto |].
  change (Text.stdoutChunks (StdoutData <$> ch :: chunks))
    with (ch :: Text.stdoutChunks (StdoutData <$> chunks)).
  change (Text.stderrChunks (StdoutData <$> ch :: chunks))
    with (Text.stderrChunks (StdoutData <$> chunks)).
  now rewrite IH1, IH2.
Qed.

Lemma stderrChunks_stderr (chunks : list string) :
  Text.stderrChunks (StderrData <$> chunks) = chunks /\
  Text.stdoutChunks (StderrData <$> chunks) = [].
Proof.
  induction chunks as [|ch chunks [IH1 IH2]]; [auto |].
  change (Text.stderrChunks (StderrData <$> ch :: chunks))
    with (ch :: Text.stderrChunks (StderrData <$> chunks)).
  change (Text.stdoutChunks (StderrData <$> ch :: chunks))
    with (Text.stdoutChunks (StderrData <$> chunks)).
  now rewrite IH1, IH2.
Qed.

Lemma handle_stdout_chunks {C : Type} `{OutputConsumer C} (chunks : list string)
    (st : ExecState C) :
  foldl Text.handle st (StdoutData <$> chunks) = feed_stdout chunks st.
Proof. revert st. induction chunks as [|ch chunks IH]; intros st; [reflexivity | apply IH]. Qed.

(** A stream without carriage returns, seen by its handler: the lines of
    the stream, and what follows its last line feed. *)
Lemma stream_without_carriage_return (chunks : list string) :
  Forall (fun ch => Text.occurrences Js.CR ch = 0%nat) chunks ->
  Text.stream "" chunks =
  (Text.lines (Text.concat chunks), List.last (Js.split Js.LF (Text.concat chunks)) "").
Proof.
  intros Hall.
  destruct (handle_trace (StdoutData <$> chunks) (start (Some [])) [] eq_refl)
    as (new & Hc & Ho & Herr & Hl & _).
  destruct (stdoutChunks_stdout chunks) as [Hout Hnone].
  rewrite Hout in Ho, Hl. rewrite Hnone in Herr. simpl in Hc, Ho, Herr, Hl.
  rewrite handle_stdout_chunks in Hc, Hl.
  destruct (ProcFacts.feed_stdout_exact chunks (start (Some [])) [] eq_refl eq_refl eq_refl Hall)
    as [Hc' Hl'].
  simpl in Hc', Hl'. rewrite Hc' in Hc. injection Hc as <-.
  destruct (outputLines_outputs (Text.lines (Text.concat chunks))) as [Ho' _].
  rewrite Ho' in Ho. rewrite Hl' in Hl.
  destruct (Text.stream "" chunks) as [ls p]. simpl in Ho, Hl. now subst.
Qed.

Lemma stream_count (chunks : list string) (acc : string) :
  length (fst (Text.stream acc chunks)) = Text.occurrences Js.LF (Text.concat chunks).
Proof.
  revert acc. induction chunks as [|ch chunks IH]; intros acc; [reflexivity |].
  cbn [Text.stream].
  specialize (IH (List.last (Text.glue acc (stripCR <$> Js.split Js.LF ch)) "")).
  destruct (Text.stream _ chunks) as [ls p]. simpl fst in *.
  rewrite length_app, IH, ProcFacts.removelast_length. simpl Text.concat.
  rewrite JsFacts.occurrences_app.
  pose proof (JsFacts.split_length Js.LF ch) as Hs.
  destruct (Js.split Js.LF ch) as [|h t]; [discriminate |].
  simpl in *. rewrite length_fmap. lia.
Qed.

Lemma stream_of_nothing (chunks : list string) (acc : string) :
  Text.concat chunks = "" -> snd (Text.stream acc chunks) = acc.
Proof.
  revert acc. induction chunks as [|ch chunks IH]; intros acc Hempty; [reflexivity |].
  simpl in Hempty. destruct ch; [| discriminate]. simpl in Hempty.
  cbn [Text.stream]. specialize (IH (acc +:+ "") Hempty).
  change (Text.glue acc (stripCR <$> Js.split Js.LF "")) with [acc +:+ ""].
  simpl List.last. destruct (Text.stream (acc +:+ "") chunks) as [ls p].
  simpl in *. now rewrite JsFacts.append_empty_r in IH.
Qed.

Lemma ends_with_line_feed (a b pre : string) :
  a +:+ b = pre +:+ Text.nl -> b <> "" -> exists pre', b = pre' +:+ Text.nl.
Proof.
  revert pre. induction a as [|c a IH]; intros pre Heq Hb.
  - now exists pre.
  - destruct pre as [|x pre].
    + simpl in Heq. injection Heq as _ Heq. destruct a; [| discriminate].
      simpl in Heq. congruence.
    + simpl in Heq. injection Heq as _ Heq. eauto.
Qed.

Lemma split_ends_with_line_feed (pre : string) :
  exists pieces piece,
    Js.split Js.LF (pre +:+ Text.nl) = pieces ++ [piece; ""].
Proof.
  rewrite JsFacts.split_app.
  change (Js.split Js.LF Text.nl) with [""; ""].
  pose proof (JsFacts.split_nonempty Js.LF pre) as Hne.
  destruct (exists_last Hne) as (l & a & ->).
  rewrite removelast_last, last_last. simpl Text.glue. now exists l, (a +:+ "").
Qed.

Lemma last_glue_two (acc : string) (l : list string) (x y : string) :
  List.last (Text.glue acc (l ++ [x; y])) "" = y.
Proof.
  destruct l as [|h t]; [reflexivity |]. simpl Text.glue.
  replace ((acc +:+ h) :: t ++ [x; y]) with (((acc +:+ h) :: t ++ [x]) ++ [y])
    by (simpl; now rewrite <- app_assoc).
  apply last_last.
Qed.

(** After a stream that ends in a line feed no partial line is kept. *)
Lemma stream_ends_clean (chunks : list string) (acc pre : string) :
  Text.concat chunks = pre +:+ Text.nl -> snd (Text.stream acc chunks) = "".
Proof.
  revert acc pre. induction chunks as [|ch chunks IH]; intros acc pre Heq.
  - destruct pre; discriminate.
  - simpl in Heq. cbn [Text.stream].
    destruct (Text.stream (List.last (Text.glue acc (stripCR <$> Js.split Js.LF ch)) "") chunks)
      as [ls p] eqn:Es.
    simpl. assert (Hp : p = snd (Text.stream
              (List.last (Text.glue acc (stripCR <$> Js.split Js.LF ch)) "") chunks))
      by now rewrite Es.
    destruct (Text.concat chunks) as [|c rest] eqn:Erest.
    + rewrite JsFacts.append_empty_r in Heq. subst ch.
      rewrite Hp, (stream_of_nothing _ _ Erest).
      destruct (split_ends_with_line_feed pre) as (pieces & piece & ->).
      rewrite fmap_app.
      change (stripCR <$> [piece; ""]) with [stripCR piece; ""].
      apply last_glue_two.
    + destruct (ends_with_line_feed _ _ _ Heq) as [pre' Hpre']; [discriminate |].
      rewrite Hp. now apply (IH _ pre').
Qed.

(** The calls of a child that writes to stdout only, without carriage
    returns. *)
Lemma execute_stdout_only (chunks : list string) (code : Z) :
  Forall (fun ch => Text.occurrences Js.CR ch = 0%nat) chunks ->
  snd (execute (Runs (StdoutData <$> chunks) code) (Some [])) =
  Some (Output <$> (Text.lines (Text.concat chunks) ++ Text.pending (Text.concat chunks))).
Proof.
  intros Hall. destruct (execute_trace (StdoutData <$> chunks) code) as (calls & Hc & Ho & He).
  destruct (stdoutChunks_stdout chunks) as [Hs1 Hs2].
  rewrite Hs1 in Ho. rewrite Hs2 in He. simpl in He.
  rewrite (stream_without_carriage_return _ Hall) in Ho. simpl in Ho.
  rewrite Hc, (only_outputs _ He), Ho. reflexivity.
Qed.

(** ** Properties of a run *)

(** When the stdout of a child ends in a line feed, the consumer receives as
    many [output] calls as the stream has line feeds, however the stream is
    cut into chunks and mixed with chunks of stderr, and none is added when
    the child closes. *)
Theorem stdout_calls_count (events : list ChildEvent) (code : Z) (pre : string) :
  Text.concat (Text.stdoutChunks events) = pre +:+ Text.nl ->
  exists calls,
    snd (execute (Runs events code) (Some [])) = Some calls /\
    length (Text.outputLines calls) = Text.occurrences Js.LF (pre +:+ Text.nl).
Proof.
  intros Hwhole. destruct (execute_trace events code) as (calls & Hc & Ho & _).
  exists calls. split; [exact Hc |].
  rewrite Ho, (stream_ends_clean _ _ _ Hwhole), app_nil_r, stream_count.
  now rewrite Hwhole.
Qed.

Lemma stdout_calls_count_witness :
  exists calls,
    snd (execute (Runs [StdoutData ("a" +:+ Text.cr); StderrData "warn";
                        StdoutData (Text.nl +:+ "b"); StdoutData Text.nl] 0) (Some []))
    = Some calls /\
    length (Text.outputLines calls) = 2%nat.
Proof.
  exact (stdout_calls_count
           [StdoutData ("a" +:+ Text.cr); StderrData "warn";
            StdoutData (Text.nl +:+ "b"); StdoutData Text.nl] 0
           ("a" +:+ Text.cr +:+ Text.nl +:+ "b") eq_refl).
Defined.

(** When the stdout of a child holds no carriage return, the [output] calls
    are the lines of the stream, each once and in order, followed by the
    text after the last line feed if there is any; the chunks and the
    stderr mixed in make no difference. *)
Theorem stdout_lines_without_carriage_return (events : list ChildEvent) (code : Z) :
  Forall (fun ch => Text.occurrences Js.CR ch = 0%nat) (Text.stdoutChunks events) ->
  exists calls,
    snd (execute (Runs events code) (Some [])) = Some calls /\
    Text.outputLines calls =
      Text.lines (Text.concat (Text.stdoutChunks events))
      ++ Text.pending (Text.concat (Text.stdoutChunks events)).
Proof.
  intros Hall. destruct (execute_trace events code) as (calls & Hc & Ho & _).
  exists calls. split; [exact Hc |].
  now rewrite Ho, (stream_without_carriage_return _ Hall).
Qed.

Lemma stdout_lines_without_carriage_return_witness :
  exists calls,
    snd (execute (Runs [StdoutData "-- Config"; StderrData "warn";
                        StdoutData ("uring" +:+ Text.nl +:+ "-- Do"); StdoutData "ne"] 0)
           (Some []))
    = Some calls /\
    Text.outputLines calls = ["-- Configuring"; "-- Done"].
Proof.
  apply (stdout_lines_without_carriage_return
           [StdoutData "-- Config"; StderrData "warn";
            StdoutData ("uring" +:+ Text.nl +:+ "-- Do"); StdoutData "ne"] 0).
  repeat constructor.
Defined.

(** The [output] calls of a run are those of the run of its stdout chunks
    alone, and the [error] calls those of its stderr chunks alone: neither
    stream changes what is reported for the other. *)
Theorem streams_are_independent (events : list ChildEvent) (code : Z) :
  exists calls outs errs,
    snd (execute (Runs events code) (Some [])) = Some calls /\
    snd (execute (Runs (StdoutData <$> Text.stdoutChunks events) code) (Some []))
    = Some (Output <$> outs) /\
    snd (execute (Runs (StderrData <$> Text.stderrChunks events) code) (Some []))
    = Some (Error <$> errs) /\
    Text.outputLines calls = outs /\
    Text.errorLines calls = errs.
Proof.
  destruct (execute_trace events code) as (calls & Hc & Ho & He).
  destruct (execute_trace (StdoutData <$> Text.stdoutChunks events) code)
    as (co & Hco & Hoo & Heo).
  destruct (execute_trace (StderrData <$> Text.stderrChunks events) code)
    as (ce & Hce & Hoe & Hee).
  destruct (stdoutChunks_stdout (Text.stdoutChunks events)) as [Hs1 Hs2].
  destruct (stderrChunks_stderr (Text.stderrChunks events)) as [Hs3 Hs4].
  rewrite Hs1 in Hoo. rewrite Hs2 in Heo. rewrite Hs3 in Hee. rewrite Hs4 in Hoe.
  simpl in Heo, Hoe.
  exists calls, (Text.outputLines co), (Text.errorLines ce).
  split; [exact Hc |].
  split; [now rewrite <- (only_outputs _ Heo) |].
  split; [now rewrite <- (only_errors _ Hoe) |].
  split; congruence.
Qed.

Lemma execute_replay {C : Type} `{OutputConsumer C} (child : Child) (c : C) :
  exists calls,
    snd (execute child (Some [])) = Some calls /\
    snd (execute child (Some c)) = Some (Text.replay calls c) /\
    fst (execute child (Some c)) = fst (execute child (Some [])).
Proof.
  destruct child as [err | events code].
  - exists []. simpl. auto.
  - rewrite !execute_Runs.
    destruct (handle_simulation events (start (Some c)) (start (Some [])) c []
                eq_refl eq_refl eq_refl eq_refl) as (Hl & He & new & Hr & Hc).
    destruct (handle_accs events (start (Some c))) as [Ho1 He1].
    destruct (handle_accs events (start (Some ([] : list Call)))) as [Ho2 He2].
    simpl in Hr, Ho1, He1, Ho2, He2.
    unfold on_close. simpl fst. simpl snd.
    rewrite Hr, Hc, Hl, He, Ho1, He1, Ho2, He2.
    destruct (Js.truthy (line_acc (foldl Text.handle (start (Some [])) events)));
      destruct (Js.truthy (stderr_line_acc (foldl Text.handle (start (Some [])) events)));
      simpl; eexists; (split; [reflexivity |]); split; try reflexivity;
      now rewrite ?replay_app.
Qed.


(** The result of a child that closes carries its exit code and, for each
    stream, all the chunks received, in order and unchanged, whether a
    consumer is attached or not. *)
Theorem result_accumulates_streams {C : Type} `{OutputConsumer C}
    (events : list ChildEvent) (code : Z) (oc : option C) :
  fst (execute (Runs events code) oc) =
  Resolved {| retc := code;
              stdout := Text.concat (Text.stdoutChunks events);
              stderr := Text.concat (Text.stderrChunks events) |}.
Proof.
  rewrite execute_Runs. destruct (handle_accs events (start oc)) as [Ho He].
  unfold on_close. simpl. now rewrite Ho, He.
Qed.

End ProcExtra.

(** * More about the cache file *)

Module CacheExtra.
Import Cache.

#[local] Arguments String.append !s1 s2 : simpl nomatch.

(** ** Line ends *)

Lemma splitLines_cons (c : ascii) (s : string) :
  Js.isLineTerminator c = false ->
  splitLines (String c s) =
  match splitLines s with
  | h :: t => String c h :: t
  | [] => [String c ""]
  end.
Proof.
  unfold Js.isLineTerminator. intros Hc. apply orb_false_iff in Hc as [Hlf Hcr].
  cbn [splitLines]. now rewrite Hcr, Hlf.
Qed.

Lemma splitLines_nonempty (s : string) : splitLines s <> [].
Proof.
  destruct s as [|c s]; [discriminate |]. cbn [splitLines].
  destruct (Ascii.eqb c Js.CR); [discriminate |].
  destruct (Ascii.eqb c Js.LF); [discriminate |].
  destruct (splitLines s); discriminate.
Qed.

(** A line, a line end, and the rest: the line is split off. *)
Lemma splitLines_line (l sep rest : string) :
  Text.oneLine l ->
  sep = Text.nl \/ sep = Text.crnl \/
    (sep = Text.cr /\ forall r, rest <> String Js.LF r) ->
  splitLines (l +:+ sep +:+ rest) = l :: splitLines rest.
Proof.
  intros Hl Hsep. induction l as [|c l IH].
  - simpl. destruct Hsep as [-> | [-> | [-> Hrest]]]; try reflexivity.
    cbn [Text.cr String.append splitLines]. rewrite Ascii.eqb_refl.
    destruct rest as [|c' rest']; [reflexivity |].
    destruct (Ascii.eqb c' Js.LF) eqn:Ec; [| reflexivity].
    apply Ascii.eqb_eq in Ec. subst c'. now destruct (Hrest rest').
  - apply CacheFacts.isLineTerminator_false in Hl as [Hc Hl].
    change (String c l +:+ sep +:+ rest) with (String c (l +:+ sep +:+ rest)).
    rewrite (splitLines_cons _ _ Hc), (IH Hl). reflexivity.
Qed.

Lemma join_not_line_feed (ls : list string) (r : string) :
  Forall Text.oneLine ls -> Text.join Text.cr ls <> String Js.LF r.
Proof.
  intros Hall Heq. destruct ls as [|l ls]; [discriminate |].
  apply Forall_cons in Hall as [[Hlf _] _].
  destruct l as [|c l].
  - destruct ls; discriminate.
  - assert (Hc : c = Js.LF) by (destruct ls; simpl in Heq; now injection Heq).
    subst c. simpl in Hlf. discriminate.
Qed.

(** Splitting undoes joining, for each of the three line ends. *)
Lemma splitLines_join (sep : string) (ls : list string) :
  sep = Text.nl \/ sep = Text.crnl \/ sep = Text.cr ->
  Forall Text.oneLine ls -> ls <> [] ->
  splitLines (Text.join sep ls) = ls.
Proof.
  intros Hsep Hall Hne. induction ls as [|l [|l' ls] IH]; [congruence | |].
  - apply Forall_cons in Hall as [Hl _]. simpl.
    rewrite <- (JsFacts.append_empty_r l). clear Hne IH.
    induction l as [|c l IHl]; [reflexivity |].
    apply CacheFacts.isLineTerminator_false in Hl as [Hc Hl].
    change (String c l +:+ "") with (String c (l +:+ "")).
    rewrite (splitLines_cons _ _ Hc), (IHl Hl). reflexivity.
  - apply Forall_cons in Hall as [Hl Hall].
    change (Text.join sep (l :: l' :: ls)) with (l +:+ sep +:+ Text.join sep (l' :: ls)).
    rewrite splitLines_line, IH; [reflexivity | exact Hall | discriminate | exact Hl |].
    destruct Hsep as [-> | [-> | ->]]; auto.
    right. right. split; [reflexivity |]. intros r. now apply join_not_line_feed.
Qed.

(** A file parses the same whether its lines end in LF, in CR LF or in CR. *)
Theorem line_ends_do_not_matter (isTruthy : string -> bool) (ls : list string) :
  Forall Text.oneLine ls ->
  parseCacheRun isTruthy (Text.join Text.crnl ls) = parseCacheRun isTruthy (Text.join Text.nl ls) /\
  parseCacheRun isTruthy (Text.join Text.cr ls) = parseCacheRun isTruthy (Text.join Text.nl ls).
Proof.
  intros Hall. destruct ls as [|l ls]; [split; reflexivity |].
  unfold parseCacheRun, cacheLines.
  rewrite !splitLines_join; auto; discriminate.
Qed.

Lemma line_ends_do_not_matter_witness :
  parseCacheRun (fun _ => true) ("//Build type" +:+ Text.crnl +:+ "CMAKE_BUILD_TYPE:STRING=Debug")
  = parseCacheRun (fun _ => true) ("//Build type" +:+ Text.nl +:+ "CMAKE_BUILD_TYPE:STRING=Debug").
Proof.
  destruct (line_ends_do_not_matter (fun _ => true)
              ["//Build type"; "CMAKE_BUILD_TYPE:STRING=Debug"]) as [Hcrnl _].
  - repeat constructor.
  - exact Hcrnl.
Defined.

(** ** The entry pattern *)

(** On a line, the entry pattern matches exactly when the line is a name
    without colon, a colon, a type token without equals sign, an equals
    sign and a value; the three groups are these parts.  So the first colon
    and the first equals sign after it delimit, the value may hold more of
    either, and any of the parts may be empty. *)
Theorem entry_pattern_cuts (line n t v : string) :
  Text.oneLine line ->
  execEntry line = Some (n, t, v) <->
  line = n +:+ ":" +:+ t +:+ "=" +:+ v /\
  Text.occurrences ":" n = 0%nat /\ Text.occurrences "=" t = 0%nat.
Proof. apply CacheFacts.execEntry_Some. Qed.

Lemma entry_pattern_cuts_witness :
  execEntry "CMAKE_CXX_FLAGS:STRING=-O2 -DX=1:2" =
  Some ("CMAKE_CXX_FLAGS", "STRING", "-O2 -DX=1:2").
Proof.
  apply (entry_pattern_cuts "CMAKE_CXX_FLAGS:STRING=-O2 -DX=1:2");
    [split; reflexivity |].
  split; [reflexivity |]. split; reflexivity.
Defined.

(** On a line, the entry pattern fails exactly when the line holds no colon
    with an equals sign somewhere after it. *)
Theorem entry_pattern_refuses (line : string) :
  Text.oneLine line ->
  execEntry line = None <-> forall n t v, line <> n +:+ ":" +:+ t +:+ "=" +:+ v.
Proof.
  intros Hline. split.
  - now apply CacheFacts.execEntry_None.
  - intros Hno. destruct (execEntry line) as [[[n t] v]|] eqn:E; [| reflexivity].
    apply (CacheFacts.execEntry_Some _ _ _ _ Hline) in E as [Heq _].
    now destruct (Hno n t v).
Qed.

Lemma entry_pattern_refuses_witness :
  execEntry "a=b:c" = None <-> forall n t v, "a=b:c" <> n +:+ ":" +:+ t +:+ "=" +:+ v.
Proof. exact (entry_pattern_refuses "a=b:c" (conj eq_refl eq_refl)). Defined.

(** ** The lines of the loop *)

(** The loop of [parseCache] never meets an empty line, a line that holds a
    line terminator, or a line whose first character after white space is a
    hash sign. *)
Theorem loop_lines_are_clean (content line : string) :
  line ∈ cacheLines content ->
  Text.oneLine line /\ line <> "" /\ isHashComment line = false.
Proof. apply CacheFacts.cacheLines_spec. Qed.

Lemma loop_lines_are_clean_witness :
  Text.oneLine "A:BOOL=ON" /\ "A:BOOL=ON" <> "" /\ isHashComment "A:BOOL=ON" = false.
Proof.
  apply (loop_lines_are_clean
           ("# comment" +:+ Text.crnl +:+ Text.nl +:+ "A:BOOL=ON" +:+ Text.cr +:+ "  # x")).
  vm_compute. left.
Defined.

(** ** Entries *)

Section Entries.
Variable isTruthy : string -> bool.

(** A line leaves the entries as they are or sets the entry of its name. *)
Lemma parseLine_entries (st : ParseState) (line : string) :
  entries (parseLine isTruthy st line) = entries st \/
  exists name typename valuestr type,
    Js.startsWith line "//" = false /\
    execEntry line = Some (name, typename, valuestr) /\
    name <> "" /\ typemap typename = Some type /\
    entries (parseLine isTruthy st line) =
    <[name := new_Entry isTruthy name valuestr type (Js.trim (docs_acc st)) false]>
      (entries st).
Proof.
  unfold parseLine. destruct (Js.startsWith line "//") eqn:Hdoc; [now left |].
  destruct (execEntry line) as [[[name typename] valuestr]|] eqn:Hexec; [| now left].
  destruct name as [|c name]; [now left |].
  destruct typename as [|c' typename]; [now left |]. simpl negb. simpl orb. cbv iota.
  destruct (Js.endsWith (String c name) "-ADVANCED" && String.eqb valuestr "1"); [now left |].
  destruct (typemap (String c' typename)) as [type|] eqn:Htype; [| now left].
  right. exists (String c name), (String c' typename), valuestr, type.
  repeat split; try reflexivity; try assumption. discriminate.
Qed.

Lemma trimEnd_cons (c : ascii) (s : string) :
  Js.trimEnd (String c s) =
  match Js.trimEnd s with
  | EmptyString => if Js.isSpace c then EmptyString else String c EmptyString
  | t => String c t
  end.
Proof. reflexivity. Qed.

Lemma trimEnd_idem (s : string) : Js.trimEnd (Js.trimEnd s) = Js.trimEnd s.
Proof.
  induction s as [|c s IH]; [reflexivity |]. rewrite trimEnd_cons.
  destruct (Js.trimEnd s) as [|x t] eqn:E.
  - destruct (Js.isSpace c) eqn:Ec; [reflexivity |].
    rewrite trimEnd_cons. simpl Js.trimEnd. now rewrite Ec.
  - rewrite trimEnd_cons. now rewrite IH.
Qed.

Lemma trimStart_head (s : string) :
  match Js.trimStart s with
  | EmptyString => True
  | String c _ => Js.isSpace c = false
  end.
Proof.
  induction s as [|c s IH]; [exact I |]. cbn [Js.trimStart].
  destruct (Js.isSpace c) eqn:Ec; [exact IH | exact Ec].
Qed.

(** Trimming twice is trimming once. *)
Lemma trim_idem (s : string) : Js.trim (Js.trim s) = Js.trim s.
Proof.
  unfold Js.trim. pose proof (trimStart_head s) as Hhead.
  destruct (Js.trimStart s) as [|c r]; [reflexivity |].
  assert (Hkeep : Js.trimStart (Js.trimEnd (String c r)) = Js.trimEnd (String c r)).
  { rewrite trimEnd_cons. destruct (Js.trimEnd r); rewrite ?Hhead; cbn [Js.trimStart];
      now rewrite Hhead. }
  rewrite Hkeep. apply trimEnd_idem.
Qed.

(** What holds of every entry the loop has made. *)
Lemma parse_invariant (lines : list string) (st : ParseState)
    (P : string -> Entry -> Prop) :
  (forall k e, entries st !! k = Some e -> P k e) ->
  (forall name valuestr type docs,
     name <> "" -> P name (new_Entry isTruthy name valuestr type (Js.trim docs) false)) ->
  forall k e, entries (foldl (parseLine isTruthy) st lines) !! k = Some e -> P k e.
Proof.
  intros Hst Hnew. revert st Hst. induction lines as [|line lines IH]; intros st Hst.
  - exact Hst.
  - simpl foldl. apply IH. intros k e.
    destruct (parseLine_entries st line)
      as [-> | (name & typename & valuestr & type & _ & _ & Hname & _ & ->)].
    + apply Hst.
    + destruct (decide (name = k)) as [-> | Hne].
      * rewrite lookup_insert_eq. intros [= <-]. now apply Hnew.
      * rewrite lookup_insert_ne by exact Hne. apply Hst.
Qed.

End Entries.

(** Every entry of a parsed cache is stored under its own key, which is not
    empty; it is never marked advanced; its help string is trimmed; its
    value is a boolean, got through [isTruthy], when its type is [Bool], and
    a text otherwise. *)
Theorem entries_are_well_formed (isTruthy : string -> bool) (content k : string)
    (e : Entry) :
  parseCache isTruthy content !! k = Some e ->
  _key e = k /\ k <> "" /\ _advanced e = false /\ Js.trim (_docs e) = _docs e /\
  (_type e = EntryType Api.Bool -> exists raw, _value e = VBool (isTruthy raw)) /\
  (_type e <> EntryType Api.Bool -> exists raw, _value e = VString raw).
Proof.
  unfold parseCache, parseCacheRun.
  apply (parse_invariant isTruthy (cacheLines content) parse_start
           (fun k e =>
              _key e = k /\ k <> "" /\ _advanced e = false /\ Js.trim (_docs e) = _docs e /\
              (_type e = EntryType Api.Bool -> exists raw, _value e = VBool (isTruthy raw)) /\
              (_type e <> EntryType Api.Bool -> exists raw, _value e = VString raw))).
  - intros k' e' Hin. simpl in Hin. now rewrite lookup_empty in Hin.
  - intros name valuestr type docs Hname. simpl.
    split; [reflexivity |]. split; [exact Hname |]. split; [reflexivity |].
    split; [apply trim_idem |].
    split.
    + intros ->. now exists valuestr.
    + intros Htype. exists valuestr. destruct type as [[]|]; try reflexivity. congruence.
Qed.

Lemma entries_are_well_formed_witness :
  let e := {| _type := EntryType Api.Bool; _docs := "Build tests"; _key := "BUILD_TESTING";
              _value := VBool true; _advanced := false |} in
  _key e = "BUILD_TESTING" /\ "BUILD_TESTING" <> "" /\ _advanced e = false /\
  Js.trim (_docs e) = _docs e /\
  (_type e = EntryType Api.Bool -> exists raw, _value e = VBool (negb (String.eqb raw "OFF"))) /\
  (_type e <> EntryType Api.Bool -> exists raw, _value e = VString raw).
Proof.
  exact (entries_are_well_formed (fun raw => negb (String.eqb raw "OFF"))
           ("//  Build tests " +:+ Text.nl +:+ "BUILD_TESTING:BOOL=ON") "BUILD_TESTING" _
           eq_refl).
Defined.

(** Lines that do not match the pattern with the name [n] leave the entry
    of [n] alone. *)
Lemma other_lines_keep_entry (isTruthy : string -> bool) (n : string)
    (post : list string) (st : ParseState) :
  Forall (fun l => forall t v, execEntry l <> Some (n, t, v)) post ->
  entries (foldl (parseLine isTruthy) st post) !! n = entries st !! n.
Proof.
  revert st. induction post as [|l post IH]; intros st Hall; [reflexivity |].
  apply Forall_cons in Hall as [Hl Hall]. simpl foldl. rewrite (IH _ Hall).
  destruct (parseLine_entries isTruthy st l)
    as [-> | (name & typename & valuestr & type & _ & Hexec & _ & _ & ->)];
    [reflexivity |].
  apply lookup_insert_ne. intros ->. exact (Hl _ _ Hexec).
Qed.

(** When a name occurs on several lines the last one counts: after a line
    that sets an entry, and lines after it that do not match the pattern
    with its name, the entry of the name is the one of that line, with the
    documentation gathered before it, whatever the lines before it were. *)
Theorem last_line_of_a_name_counts (isTruthy : string -> bool) (st : ParseState)
    (pre post : list string) (line n t v : string) (type : TypemapValue) :
  Js.startsWith line "//" = false ->
  execEntry line = Some (n, t, v) ->
  n <> "" -> t <> "" ->
  Js.endsWith n "-ADVANCED" && String.eqb v "1" = false ->
  typemap t = Some type ->
  Forall (fun l => forall t' v', execEntry l <> Some (n, t', v')) post ->
  entries (foldl (parseLine isTruthy) st (pre ++ line :: post)) !! n =
  Some (new_Entry isTruthy n v type
          (Js.trim (docs_acc (foldl (parseLine isTruthy) st pre))) false).
Proof.
  intros Hdoc Hexec Hn Ht Hadv Htype Hpost.
  rewrite CacheFacts.parse_continues, (other_lines_keep_entry _ _ _ _ Hpost).
  rewrite (CacheFacts.parseLine_entry _ _ _ _ _ _ Hdoc Hexec Hn Ht Hadv), Htype.
  apply lookup_insert_eq.
Qed.

Lemma last_line_of_a_name_counts_witness :
  _value <$> (parseCache (fun _ => true)
                ("A:STRING=1" +:+ Text.nl +:+ "A:STRING=2" +:+ Text.nl +:+ "B:BOOL=ON") !! "A")
  = Some (VString "2").
Proof.
  unfold parseCache, parseCacheRun.
  change (cacheLines _) with (["A:STRING=1"] ++ "A:STRING=2" :: ["B:BOOL=ON"]).
  rewrite (last_line_of_a_name_counts (fun _ => true) parse_start ["A:STRING=1"] ["B:BOOL=ON"]
             "A:STRING=2" "A" "STRING" "2" (EntryType Api.String));
    try reflexivity; try discriminate.
  repeat constructor. intros t' v'. discriminate.
Defined.

(** Documentation is for the next entry line only: an entry line that comes
    right after another entry line, of a known type or not, gets the empty
    help string. *)
Theorem help_is_for_the_next_entry_only (isTruthy : string -> bool) (st : ParseState)
    (e1 e2 n1 t1 v1 n2 t2 v2 : string) (type2 : TypemapValue) :
  Js.startsWith e1 "//" = false -> execEntry e1 = Some (n1, t1, v1) ->
  n1 <> "" -> t1 <> "" -> Js.endsWith n1 "-ADVANCED" && String.eqb v1 "1" = false ->
  Js.startsWith e2 "//" = false -> execEntry e2 = Some (n2, t2, v2) ->
  n2 <> "" -> t2 <> "" -> Js.endsWith n2 "-ADVANCED" && String.eqb v2 "1" = false ->
  typemap t2 = Some type2 ->
  entries (foldl (parseLine isTruthy) st [e1; e2]) !! n2 =
  Some (new_Entry isTruthy n2 v2 type2 "" false).
Proof.
  intros Hd1 Hx1 Hn1 Ht1 Ha1 Hd2 Hx2 Hn2 Ht2 Ha2 Htype. simpl foldl.
  rewrite (CacheFacts.parseLine_entry _ _ _ _ _ _ Hd2 Hx2 Hn2 Ht2 Ha2), Htype.
  rewrite (CacheFacts.parseLine_entry _ _ _ _ _ _ Hd1 Hx1 Hn1 Ht1 Ha1).
  destruct (typemap t1); simpl; apply lookup_insert_eq.
Qed.

Lemma help_is_for_the_next_entry_only_witness :
  _docs <$> (parseCache (fun _ => true)
               ("//Flags" +:+ Text.nl +:+ "A:STRING=1" +:+ Text.nl +:+ "B:BOOL=ON") !! "B")
  = Some "".
Proof.
  unfold parseCache, parseCacheRun.
  change (cacheLines _) with (["//Flags"] ++ ["A:STRING=1"; "B:BOOL=ON"]).
  rewrite foldl_app.
  rewrite (help_is_for_the_next_entry_only (fun _ => true) _ "A:STRING=1" "B:BOOL=ON"
             "A" "STRING" "1" "B" "BOOL" "ON" (EntryType Api.Bool));
    try reflexivity; discriminate.
Defined.

End CacheExtra.

(** * More about the target list parser and the driver *)

Module LegacyExtra.
Import Proc Legacy.

#[local] Arguments String.append !s1 s2 : simpl nomatch.

(** ** [TargetListParser] *)

Lemma substring_nothing (s : string) : String.substring 0 0 s = "".
Proof. now destruct s. Qed.

(** [indexOf] is -1 exactly when the text is not included; otherwise it
    cuts before the first occurrence. *)
Lemma indexOf_includes (s p : string) :
  if Js.includes s p
  then 0 <= Js.indexOf s p /\
       Js.substr s 0 (Some (Js.indexOf s p)) = Text.beforeFirst p s
  else Js.indexOf s p = -1.
Proof.
  induction s as [|c s IH].
  - cbn [Js.includes Js.indexOf Text.beforeFirst]. rewrite orb_false_r.
    destruct (String.prefix p ""); [split; [lia | reflexivity] | reflexivity].
  - cbn [Js.includes Js.indexOf Text.beforeFirst].
    destruct (String.prefix p (String c s)).
    + simpl orb. cbv iota. split; [lia |]. rewrite JsFacts.substr_take by lia. reflexivity.
    + simpl orb. destruct (Js.includes s p).
      * destruct IH as [Hnn Hcut].
        replace (Js.indexOf s p <? 0) with false by (symmetry; apply Z.ltb_ge; lia).
        split; [lia |].
        rewrite JsFacts.substr_take by lia. rewrite JsFacts.substr_take in Hcut by lia.
        rewrite Z2Nat.inj_add by lia. rewrite Nat.add_1_r. simpl. now rewrite Hcut.
      * rewrite IH. reflexivity.
Qed.

(** One line for a generator that is no Makefile generator. *)
Lemma output_other (p : TargetListParser) (line : string) :
  Js.endsWith (generator p) "Makefiles" = false ->
  output line p =
  if Js.includes line ": " && negb (Js.includes line "All primary targets")
  then push_targetName (Text.beforeFirst ": " line) p else p.
Proof.
  intros Hgen. simpl output. unfold TargetListParser_output. rewrite Hgen.
  pose proof (indexOf_includes line ": ") as Hidx.
  destruct (Js.includes line ": ").
  - destruct Hidx as [Hnn Hcut].
    replace (Js.indexOf line ": " =? -1) with false by (symmetry; apply Z.eqb_neq; lia).
    simpl. destruct (Js.includes line "All primary targets"); [reflexivity |].
    simpl. now rewrite Hcut.
  - rewrite Hidx. reflexivity.
Qed.

(** A line adds the names it would give on its own, and keeps the
    generator. *)
Lemma output_adds (p : TargetListParser) (line : string) :
  targetNames (output line p) = targetNames p ++ parse_targets (generator p) [line] /\
  generator (output line p) = generator p.
Proof.
  unfold parse_targets. simpl foldl. simpl output. unfold TargetListParser_output.
  simpl generator.
  destruct (Js.endsWith (generator p) "Makefiles").
  - destruct (negb (Js.startsWith line "...")); simpl; [now rewrite app_nil_r | auto].
  - destruct ((Js.indexOf line ": " =? -1) || Js.includes line "All primary targets");
      simpl; [now rewrite app_nil_r | auto].
Qed.

Lemma parse_from (lines : list string) (p : TargetListParser) :
  targetNames (foldl (fun p line => output line p) p lines) =
  targetNames p ++ parse_targets (generator p) lines.
Proof.
  revert p. induction lines as [|l lines IH]; intros p.
  - unfold parse_targets. simpl. now rewrite app_nil_r.
  - cbn [foldl]. rewrite IH. destruct (output_adds p l) as [Hn Hg]. rewrite Hn, Hg.
    assert (Hcons : parse_targets (generator p) (l :: lines) =
                    parse_targets (generator p) [l] ++ parse_targets (generator p) lines).
    { unfold parse_targets at 1. cbn [foldl].
      rewrite (IH (output l (new_TargetListParser (generator p)))).
      destruct (output_adds (new_TargetListParser (generator p)) l) as [Hn' Hg'].
      rewrite Hn', Hg'. reflexivity. }
    rewrite Hcons. now rewrite <- app_assoc.
Qed.

(** For a generator whose name does not end in [Makefiles], the targets
    are, in order, those of the lines that hold a colon followed by a space
    and do not hold [All primary targets]; each is what stands before the
    first colon followed by a space. *)
Theorem other_generator_targets (g : string) (lines : list string) :
  Js.endsWith g "Makefiles" = false ->
  parse_targets g lines =
  Text.beforeFirst ": " <$>
    filter (fun l => Js.includes l ": " = true /\
                     Js.includes l "All primary targets" = false) lines.
Proof.
  intros Hgen. unfold parse_targets.
  assert (Hfold : forall p, generator p = g ->
            targetNames (foldl (fun p line => output line p) p lines) =
            targetNames p ++
            (Text.beforeFirst ": " <$>
               filter (fun l => Js.includes l ": " = true /\
                                Js.includes l "All primary targets" = false) lines)).
  { induction lines as [|l lines IH]; intros p Hp.
    - simpl. now rewrite app_nil_r.
    - cbn [foldl]. rewrite output_other by now rewrite Hp.
      rewrite filter_cons.
      destruct (Js.includes l ": ") eqn:Ec;
        destruct (Js.includes l "All primary targets") eqn:Ea; simpl andb; cbv iota.
      + rewrite decide_False by (intros [_ Hf]; discriminate). now apply IH.
      + rewrite decide_True by auto. rewrite IH by exact Hp.
        unfold targetNames, push_targetName. simpl. now rewrite <- app_assoc.
      + rewrite decide_False by (intros [Hf _]; discriminate). now apply IH.
      + rewrite decide_False by (intros [Hf _]; discriminate). now apply IH. }
  now rewrite Hfold.
Qed.

Lemma other_generator_targets_witness :
  parse_targets "Ninja"
    ["All primary targets available:"; "my_target: phony"; "lib/a.o: CXX_COMPILER: x";
     "no colon here"]
  = ["my_target"; "lib/a.o"].
Proof.
  rewrite (other_generator_targets "Ninja"); [| reflexivity]. vm_compute. reflexivity.
Defined.

(** Names only add up: a parser that has read some lines and reads more
    holds the names of the first followed by the names of the others, each
    line giving what it would give alone, duplicates kept. *)
Theorem targets_accumulate (g : string) (lines more : list string) :
  parse_targets g (lines ++ more) = parse_targets g lines ++ parse_targets g more.
Proof.
  unfold parse_targets at 1. rewrite foldl_app, parse_from.
  assert (Hg : forall ls p, generator (foldl (fun p line => output line p) p ls) = generator p).
  { induction ls as [|l ls IH]; intros p; [reflexivity |].
    cbn [foldl]. rewrite IH. apply output_adds. }
  rewrite Hg. reflexivity.
Qed.

(** ** [LegacyCMakeDriver] *)

Section DriverExtra.
Context {Value : Type}.
Variable cmakeify : Value -> CMakeValue.t.
Variable normalizePath : string -> string.
Context {C : Type} `{OutputConsumer C}.

#[local] Abbreviation Heap := (Heap (Value := Value) (C := C)).

#[local] Arguments execute : simpl never.
#[local] Arguments _refreshTargets : simpl never.

Ltac unfold_ops :=
  unfold setKit, setVariantOptions, asyncDispose, configure, cleanConfigure, build,
    _init, _setBaseKit, executeCommand_consumer, executeCommand, log_spawn, read,
    read_consumer, write_consumer, await, update, throw, mbind, M_bind, bind,
    mret, M_ret, ret in *.

(** What target discovery does when the generator is known. *)
Lemma refreshTargets_known (w : World) (h : Heap) (g : string) :
  generatorName w = Some g ->
  _refreshTargets w h =
  let r := execute (help w) (Some (new_TargetListParser g)) in
  let h1 := {| this := this h; consumer := consumer h;
               spawned := spawned h ++ [Text.helpInvocation w (this h)] |} in
  match fst r with
  | Rejected err => (Rejected err, h1)
  | Resolved _ =>
      (Resolved tt,
       {| this := set_targets (Text.named <$> from_option targetNames [] (snd r)) (this h);
          consumer := consumer h;
          spawned := spawned h ++ [Text.helpInvocation w (this h)] |})
  end.
Proof.
  intros Hg. unfold _refreshTargets. unfold_ops. rewrite Hg. simpl.
  destruct (execute (help w) (Some (new_TargetListParser g))) as [[res | err] oc];
    reflexivity.
Qed.

(** The targets the driver holds after a discovery are parsed from the
    lines of what the listing process wrote, not from its chunks: for a
    known generator and a process that writes to stdout without carriage
    returns, they are the targets of the lines of the whole text, and of
    its last partial line if there is one. *)
Theorem discovery_does_not_depend_on_chunks (w : World) (h : Heap) (g : string)
    (chunks : list string) (code : Z) :
  generatorName w = Some g ->
  help w = Runs (StdoutData <$> chunks) code ->
  Forall (fun ch => Text.occurrences Js.CR ch = 0%nat) chunks ->
  let whole := Text.concat chunks in
  fst (_refreshTargets w h) = Resolved tt /\
  _targets (this (snd (_refreshTargets w h))) =
  Text.named <$> parse_targets g (Text.lines whole ++ Text.pending whole).
Proof.
  intros Hg Hhelp Hall whole. rewrite (refreshTargets_known _ _ _ Hg), Hhelp.
  destruct (ProcExtra.execute_replay (Runs (StdoutData <$> chunks) code)
              (new_TargetListParser g)) as (calls & Hrec & Hcons & Hfst).
  rewrite (ProcExtra.execute_stdout_only _ code Hall) in Hrec. injection Hrec as <-.
  cbv zeta. rewrite Hfst, Hcons, ProcExtra.execute_Runs. simpl fst. cbv iota.
  split; [reflexivity |]. simpl _targets. f_equal.
  simpl from_option. rewrite ProcExtra.replay_outputs.
  exact (parse_from _ (new_TargetListParser g)).
Qed.

(** Discovery keeps the targets named. *)
Lemma refreshTargets_named (w : World) (h : Heap) :
  Forall (fun t => NamedTarget.type t = "named") (_targets (this h)) ->
  Forall (fun t => NamedTarget.type t = "named") (_targets (this (snd (_refreshTargets w h)))).
Proof.
  intros Hall. unfold _refreshTargets. unfold_ops. simpl.
  destruct (generatorName w) as [g|].
  - destruct (execute (help w) (Some (new_TargetListParser g))) as [[res | err] oc];
      simpl; [| exact Hall].
    apply Forall_fmap, Forall_true. reflexivity.
  - destruct (execute (help w) (Some [])) as [r [[|c0 calls]|]]; simpl;
      destruct r; simpl; auto.
Qed.

Lemma perform_named (op : Op) (w : World) (h : Heap) :
  Forall (fun t => NamedTarget.type t = "named") (_targets (this h)) ->
  Forall (fun t => NamedTarget.type t = "named")
    (_targets (this (snd (perform cmakeify normalizePath op w h)))).
Proof.
  intros Hall.
  assert (Hconf : Forall (fun t => NamedTarget.type t = "named")
                    (_targets (this (snd (configure cmakeify normalizePath w h))))).
  { destruct (_beforeConfigure w) eqn:Hb;
      [| now rewrite (LegacyFacts.configure_aborted _ _ _ _ Hb)].
    destruct (_kit (this h)) as [kit|] eqn:Hk;
      [| now rewrite (LegacyFacts.configure_no_kit _ _ _ _ Hb Hk)].
    destruct (execute (tool w) (consumer h)) as [r oc] eqn:Hexec.
    rewrite (LegacyFacts.configure_started _ _ _ _ _ _ _ Hb Hk Hexec).
    destruct r as [res | err]; [| exact Hall]. cbv zeta.
    destruct (_reloadCMakeCache w) as [[]|err]; [| now destruct (retc res =? 0)].
    match goal with
    | |- context [_refreshTargets w ?h2] =>
        pose proof (refreshTargets_named w h2) as Href;
        destruct (_refreshTargets w h2) as [[[]|err] h3]
    end; apply Href; now destruct (retc res =? 0). }
  destruct op as [kit | opts | | | | target]; unfold perform;
    unfold mbind, M_bind, bind, ret.
  - rewrite LegacyFacts.setKit_cases.
    now destruct (if _kitChangeNeedsClean w then rmdir_binaryDir w else Resolved tt).
  - exact Hall.
  - exact Hall.
  - now destruct (configure cmakeify normalizePath w h) as [[c|err] h'].
  - destruct (LegacyFacts.cleanConfigure_cases cmakeify normalizePath w h)
      as [[err Hrej] | Hsame].
    + now rewrite Hrej.
    + rewrite Hsame. now destruct (configure cmakeify normalizePath w h) as [[c|err] h'].
  - assert (Hbuild : Forall (fun t => NamedTarget.type t = "named")
                       (_targets (this (snd (build target w h))))).
    { destruct (_beforeConfigure w) eqn:Hb;
        [| now rewrite (LegacyFacts.build_aborted _ _ _ Hb)].
      destruct (execute (tool w) (consumer h)) as [r oc] eqn:Hexec.
      rewrite (LegacyFacts.build_started _ _ _ _ _ Hb Hexec).
      destruct r as [res | err]; [| exact Hall].
      destruct (_reloadCMakeCache w) as [[]|err]; [| exact Hall].
      match goal with
      | |- context [_refreshTargets w ?h1] =>
          pose proof (refreshTargets_named w h1) as Href;
          destruct (_refreshTargets w h1) as [[[]|err] h2]
      end; apply Href; exact Hall. }
    now destruct (build target w h) as [[sub|err] h'].
Qed.

(** Every target the driver holds is of the kind [named], after any
    sequence of operations, whatever their outcomes. *)
Theorem targets_stay_named (ops : list (Op * World)) (h : Heap) :
  Forall (fun t => NamedTarget.type t = "named") (_targets (this h)) ->
  Forall (fun t => NamedTarget.type t = "named")
    (_targets (this (perform_all cmakeify normalizePath ops h))).
Proof.
  revert h. induction ops as [|[op w] ops IH]; intros h Hall; [exact Hall |].
  unfold perform_all. cbn [foldl]. apply IH. simpl. now apply perform_named.
Qed.

(** [build] changes nothing of the driver but its targets: the kit, the
    flag, the build type, the settings and the linkage are as before,
    however the build ends. *)
Theorem build_keeps_configuration (target : string) (w : World) (h : Heap) :
  let d' := this (snd (build target w h)) in
  _kit d' = _kit (this h) /\
  _needsReconfigure d' = _needsReconfigure (this h) /\
  _buildType d' = _buildType (this h) /\
  _configArgs d' = _configArgs (this h) /\
  _linkage d' = _linkage (this h).
Proof.
  cbv zeta.
  destruct (_beforeConfigure w) eqn:Hb;
    [| rewrite (LegacyFacts.build_aborted _ _ _ Hb); auto].
  destruct (execute (tool w) (consumer h)) as [r oc] eqn:Hexec.
  rewrite (LegacyFacts.build_started _ _ _ _ _ Hb Hexec).
  destruct r as [res | err]; [| simpl; auto].
  destruct (_reloadCMakeCache w) as [[]|err]; [| simpl; auto].
  match goal with
  | |- context [_refreshTargets w ?h1] =>
      pose proof (LegacyFacts.refreshTargets_effect w h1) as Heff;
      destruct (_refreshTargets w h1) as [[[]|err] h2]
  end; simpl in Heff; simpl; intuition.
Qed.

(** The process [build] starts. *)
Lemma build_invocation (target : string) (w : World) (h : Heap) :
  _beforeConfigure w = true ->
  spawned (snd (build target w h)) !! length (spawned h) =
  Some {| command := cmakePath w;
          args := Text.buildArgs w (this h) target
                  ++ generator_args (generatorName w) target (numJobs w) |}.
Proof.
  intros Hb. destruct (execute (tool w) (consumer h)) as [r oc] eqn:Hexec.
  rewrite (LegacyFacts.build_started _ _ _ _ _ Hb Hexec).
  destruct r as [res | err]; simpl.
  2:{ now rewrite lookup_app_r, Nat.sub_diag by lia. }
  destruct (_reloadCMakeCache w) as [[]|err]; simpl.
  2:{ now rewrite lookup_app_r, Nat.sub_diag by lia. }
  match goal with
  | |- context [_refreshTargets w ?h2] =>
      pose proof (LegacyFacts.refreshTargets_spawned w h2) as Hsp;
      destruct (_refreshTargets w h2) as [[[]|err] h3]
  end; simpl in *; rewrite Hsp;
  rewrite lookup_app_l by (rewrite length_app; simpl; lia);
  now rewrite lookup_app_r, Nat.sub_diag by lia.
Qed.

(** The processes of a [configure]: none when the checks fail or no kit is
    set; otherwise the tool, and after it the listing of the targets
    whenever the tool has run and closed, with whatever exit code, and the
    cache could be reloaded; the listing is not started when the tool
    cannot be started or the reload fails. *)
Theorem configure_processes (w : World) (h : Heap) :
  let after := spawned (snd (configure cmakeify normalizePath w h)) in
  (_beforeConfigure w = false \/ _kit (this h) = None -> after = spawned h) /\
  (forall kit,
     _beforeConfigure w = true -> _kit (this h) = Some kit ->
     let tool_run := {| command := cmakePath w;
                        args := Text.configureArgs cmakeify normalizePath w (this h) kit |} in
     (forall events code,
        tool w = Runs events code -> _reloadCMakeCache w = Resolved tt ->
        after = spawned h ++ [tool_run; Text.helpInvocation w (this h)]) /\
     ((exists err, tool w = SpawnError err) \/
      (exists err, _reloadCMakeCache w = Rejected err) ->
      after = spawned h ++ [tool_run])).
Proof.
  cbv zeta. split.
  - intros [Hb | Hk].
    + now rewrite (LegacyFacts.configure_aborted _ _ _ _ Hb).
    + destruct (_beforeConfigure w) eqn:Hb.
      * now rewrite (LegacyFacts.configure_no_kit _ _ _ _ Hb Hk).
      * now rewrite (LegacyFacts.configure_aborted _ _ _ _ Hb).
  - intros kit Hb Hk.
    destruct (execute (tool w) (consumer h)) as [r oc] eqn:Hexec.
    rewrite (LegacyFacts.configure_started _ _ _ _ _ _ _ Hb Hk Hexec). split.
    + intros events code Htool Hreload. rewrite Htool in Hexec.
      rewrite ProcExtra.execute_Runs in Hexec. injection Hexec as <- _.
      cbv zeta. rewrite Hreload.
      match goal with
      | |- context [_refreshTargets w ?h2] =>
          pose proof (LegacyFacts.refreshTargets_spawned w h2) as Hsp;
          destruct (_refreshTargets w h2) as [[[]|err] h3]
      end; simpl in *; rewrite Hsp; rewrite <- app_assoc; simpl;
      now destruct (code =? 0).
    + intros [[err Htool] | [err Hreload]].
      * rewrite Htool in Hexec. injection Hexec as <- _. reflexivity.
      * destruct r as [res | err']; [| reflexivity]. cbv zeta. now rewrite Hreload.
Qed.

(** The build type of the variant is the one the tool gets: after
    [setVariantOptions] with a build type that is not empty, [build] passes
    it after [--config] and [configure] passes its definition. *)
Theorem variant_build_type_is_used (opts : Variant.VariantConfigurationOptions Value)
    (b target : string) (w : World) (h : Heap) :
  Variant.buildType opts = Some b -> b <> "" ->
  _beforeConfigure w = true ->
  let h1 := snd (setVariantOptions opts h) in
  spawned (snd (build target w h1)) !! length (spawned h) =
  Some {| command := cmakePath w;
          args := ["--build"; binaryDir w; "--config"; b; "--target"; target; "--"]
                  ++ generator_args (generatorName w) target (numJobs w) |} /\
  (forall kit, _kit (this h) = Some kit ->
     exists inv,
       spawned (snd (configure cmakeify normalizePath w h1)) !! length (spawned h) = Some inv /\
       ("-DCMAKE_BUILD_TYPE:STRING=" +:+ b) ∈ args inv).
Proof.
  intros Hopt Hb Hcheck h1.
  assert (Hbt : _buildType (this h1) = b).
  { subst h1. simpl. rewrite Hopt. destruct b; [congruence | reflexivity]. }
  split.
  - change (length (spawned h)) with (length (spawned h1)).
    rewrite (build_invocation target w h1 Hcheck). unfold Text.buildArgs. now rewrite Hbt.
  - intros kit Hk. eexists. split.
    + exact (LegacyFacts.configure_arguments cmakeify normalizePath w h1 kit Hcheck Hk).
    + cbn [args]. unfold Text.configureArgs. rewrite Hbt.
      rewrite !elem_of_app. right. right. left. left.
Qed.

(** Applying the same variant options twice is applying them once. *)
Theorem setVariantOptions_twice (opts : Variant.VariantConfigurationOptions Value)
    (h : Heap) :
  setVariantOptions opts (snd (setVariantOptions opts h)) = setVariantOptions opts h.
Proof.
  unfold setVariantOptions, update. simpl. f_equal. f_equal. f_equal.
  - destruct (Variant.buildType opts) as [[|c b]|]; reflexivity.
  - now destruct (Variant.settings opts).
  - now destruct (Variant.linkage opts).
Qed.


(** The arguments of the tool: when the checks pass and a kit is set,
    [configure] starts the tool with the generator if there is no cache
    file yet, then one argument [key:type=value] for each setting in order,
    the definition of the build type, one compiler definition for each
    language of a compiler kit, the flags of the base class, and the source
    and binary directories. *)
Theorem configure_argument_list (w : World) (h : Heap) (kit : Kit.t) :
  _beforeConfigure w = true -> _kit (this h) = Some kit ->
  spawned (snd (configure cmakeify normalizePath w h)) !! length (spawned h) =
  Some {| command := cmakePath w;
          args :=
            (if exists_cachePath w then [] else ["-GNinja"])
            ++ ((fun setting =>
                   Variant.key setting +:+ ":"
                   +:+ CMakeValue.type (cmakeify (Variant.value setting)) +:+ "="
                   +:+ CMakeValue.value (cmakeify (Variant.value setting)))
                  <$> _configArgs (this h))
            ++ ["-DCMAKE_BUILD_TYPE:STRING=" +:+ _buildType (this h)]
            ++ (if String.eqb (Kit.type kit) "compilerKit"
                then (fun lc => "-DCMAKE_" +:+ fst lc +:+ "_COMPILER:FILEPATH=" +:+ snd lc)
                       <$> Kit.compilers kit
                else [])
            ++ _cmakeFlags w
            ++ ["-H" +:+ normalizePath (sourceDir w);
                "-B" +:+ normalizePath (binaryDir w)] |}.
Proof.
  intros Hb Hk.
  exact (LegacyFacts.configure_arguments cmakeify normalizePath w h kit Hb Hk).
Qed.

End DriverExtra.

Lemma targets_stay_named_witness :
  let w := {| binaryDir := "/p/build"; sourceDir := "/p";
              cachePath := "/p/build/CMakeCache.txt"; generatorName := Some "Ninja";
              cmakePath := "cmake"; numJobs := 4; super_init := Resolved None;
              _kitChangeNeedsClean := false; _beforeConfigure := true; _cmakeFlags := [];
              _reloadCMakeCache := Resolved tt; rmdir_binaryDir := Resolved tt;
              exists_cachePath := true; clean_exists_cache := false;
              clean_unlink_cache := Resolved tt; clean_exists_cmake_files := false;
              clean_rmdir_cmake_files := Resolved tt; tool := Runs [] 0;
              help := Runs [StdoutData ("all: phony" +:+ Text.nl +:+ "app: EXE" +:+ Text.nl)] 0 |} in
  let h : Heap (Value := string) (C := list Call) :=
    {| this := {| _kit := Some Sample.kit; _needsReconfigure := true; _buildType := "Debug";
                  _configArgs := []; _linkage := Variant.static;
                  _targets := [Text.named "old"] |};
       consumer := None; spawned := [] |} in
  let release := {| Variant.description := "release"; Variant.buildType := Some "Release";
                    Variant.settings := None; Variant.linkage := None |} in
  let ops := [(SetVariantOptions release, w); (Configure, w);
              (SetKit Sample.kit, Sample.world_rmdir_fails)] in
  _targets (this (perform_all Sample.cmakeify id [(SetVariantOptions release, w)] h))
  = [Text.named "old"] /\
  _targets (this (perform_all Sample.cmakeify id ops h))
  = [Text.named "all"; Text.named "app"] /\
  fst (perform Sample.cmakeify id (SetKit Sample.kit) Sample.world_rmdir_fails
         (perform_all Sample.cmakeify id [(SetVariantOptions release, w); (Configure, w)] h))
  = Rejected "EBUSY" /\
  Forall (fun t => NamedTarget.type t = "named")
    (_targets (this (perform_all Sample.cmakeify id ops h))).
Proof.
  intros w h release ops.
  split; [vm_compute; reflexivity |].
  split; [vm_compute; reflexivity |].
  split; [vm_compute; reflexivity |].
  apply targets_stay_named. repeat constructor.
Defined.

Lemma configure_argument_list_witness :
  spawned (snd (configure Sample.cmakeify id Sample.world Sample.heap)) !! 0%nat =
  Some {| command := "cmake";
          args := ["-GNinja"; "FOO:STRING=bar"; "-DCMAKE_BUILD_TYPE:STRING=Debug";
                   "-DCMAKE_CXX_COMPILER:FILEPATH=g++"; "-H/p"; "-B/p/build"] |}.
Proof.
  exact (configure_argument_list Sample.cmakeify id Sample.world Sample.heap Sample.kit
           eq_refl eq_refl).
Defined.

Lemma variant_build_type_is_used_witness :
  spawned (snd (build "all" Sample.world
                  (snd (setVariantOptions
                          {| Variant.description := "release"; Variant.buildType := Some "Release";
                             Variant.settings := None; Variant.linkage := None |}
                          Sample.heap)))) !! 0%nat =
  Some {| command := "cmake";
          args := ["--build"; "/p/build"; "--config"; "Release"; "--target"; "all"; "--";
                   "-j"; "4"] |}.
Proof.
  destruct (variant_build_type_is_used Sample.cmakeify id
              {| Variant.description := "release"; Variant.buildType := Some "Release";
                 Variant.settings := None; Variant.linkage := None |}
              "Release" "all" Sample.world Sample.heap eq_refl) as [Hbuild _];
    [discriminate | reflexivity |].
  exact Hbuild.
Defined.

Lemma discovery_does_not_depend_on_chunks_witness :
  let w := {| binaryDir := "/p/build"; sourceDir := "/p";
              cachePath := "/p/build/CMakeCache.txt"; generatorName := Some "Ninja";
              cmakePath := "cmake"; numJobs := 4; super_init := Resolved None;
              _kitChangeNeedsClean := false; _beforeConfigure := true; _cmakeFlags := [];
              _reloadCMakeCache := Resolved tt; rmdir_binaryDir := Resolved tt;
              exists_cachePath := true; clean_exists_cache := false;
              clean_unlink_cache := Resolved tt; clean_exists_cmake_files := false;
              clean_rmdir_cmake_files := Resolved tt; tool := Runs [] 0;
              help := Runs (StdoutData <$> ["all: ph"; "ony" +:+ Text.nl +:+ "app: "; "EXE"]) 0 |} in
  _targets (this (snd (_refreshTargets w Sample.heap))) = [Text.named "all"; Text.named "app"].
Proof.
  intros w.
  destruct (discovery_does_not_depend_on_chunks (C := list Call) w Sample.heap "Ninja"
              ["all: ph"; "ony" +:+ Text.nl +:+ "app: "; "EXE"] 0 eq_refl eq_refl)
    as [_ Htargets].
  - repeat constructor.
  - rewrite Htargets. vm_compute. reflexivity.
Defined.

End LegacyExtra.

(** * The diagnostics of a collection *)

Module DiagnosticsFacts.
Import Diagnostics.

Section JsMapFacts.
Context {V : Type}.

Lemma map_absent (m : list (string * V)) (k : string) (v0 v : V) :
  k ∉ (fst <$> m) ->
  map_has m k = false /\ map_get m k = None /\
  map_set m k v = m ++ [(k, v)] /\
  map_get (m ++ [(k, v0)]) k = Some v0 /\
  map_set (m ++ [(k, v0)]) k v = m ++ [(k, v)].
Proof.
  induction m as [|[k' v'] m IH]; intros Hnot.
  - simpl. rewrite String.eqb_refl. auto.
  - rewrite fmap_cons in Hnot. apply not_elem_of_cons in Hnot as [Hne Hnot]. simpl in Hne.
    destruct (IH Hnot) as (H1 & H2 & H3 & H4 & H5). simpl.
    destruct (String.eqb_spec k' k) as [-> | _]; [congruence |].
    rewrite H1, H2, H3, H4, H5. auto.
Qed.

Lemma map_present (g : string -> V) (ks : list string) (k : string) (v : V) :
  k ∈ ks -> NoDup ks ->
  map_has ((fun k => (k, g k)) <$> ks) k = true /\
  map_get ((fun k => (k, g k)) <$> ks) k = Some (g k) /\
  map_set ((fun k => (k, g k)) <$> ks) k v =
  (fun k' => (k', if decide (k' = k) then v else g k')) <$> ks.
Proof.
  induction ks as [|k' ks IH]; intros Hin Hnd; [now apply elem_of_nil in Hin |].
  apply NoDup_cons in Hnd as [Hk' Hnd]. rewrite !fmap_cons. simpl.
  destruct (String.eqb_spec k' k) as [-> | Hne].
  - simpl. split; [reflexivity |]. split; [reflexivity |].
    rewrite decide_True by reflexivity. f_equal.
    clear IH Hin Hnd. induction ks as [|x ks IH]; [reflexivity |].
    apply not_elem_of_cons in Hk' as [Hx Hk']. rewrite !fmap_cons.
    rewrite decide_False by congruence. f_equal. now apply IH.
  - apply elem_of_cons in Hin as [-> | Hin]; [congruence |].
    destruct (IH Hin Hnd) as (H1 & H2 & H3). rewrite H1, H2, H3.
    rewrite decide_False by exact Hne. auto.
Qed.

End JsMapFacts.

Lemma firsts_snoc (l : list string) (x : string) :
  Text.firsts (l ++ [x]) =
  if decide (x ∈ Text.firsts l) then Text.firsts l else Text.firsts l ++ [x].
Proof. unfold Text.firsts. now rewrite foldl_app. Qed.

Lemma firsts_spec (l : list string) :
  NoDup (Text.firsts l) /\ forall x, x ∈ Text.firsts l <-> x ∈ l.
Proof.
  induction l as [|y l [IHnd IHin]] using rev_ind.
  - split; [constructor | reflexivity].
  - rewrite firsts_snoc. destruct (decide (y ∈ Text.firsts l)) as [Hy | Hy].
    + split; [exact IHnd |]. intros x. rewrite elem_of_app, list_elem_of_singleton, IHin.
      split; [auto |]. intros [Hx | ->]; [exact Hx | now apply IHin].
    + split.
      * apply NoDup_app. split; [exact IHnd |]. split; [| apply NoDup_singleton].
        intros x Hx Hx'. apply list_elem_of_singleton in Hx'. now subst.
      * intros x. rewrite !elem_of_app, IHin. reflexivity.
Qed.

Section PopulateFacts.
Context {Diagnostic Uri : Type}.
Variable Uri_file : string -> Uri.

Lemma diagsOf_snoc (fp : string) (l : list (FileDiagnostic (Diagnostic := Diagnostic)))
    (f : FileDiagnostic) :
  Text.diagsOf fp (l ++ [f]) =
  Text.diagsOf fp l ++ (if decide (filepath f = fp) then [diag f] else []).
Proof.
  unfold Text.diagsOf. rewrite filter_app, fmap_app. f_equal.
  rewrite filter_cons, filter_nil. now destruct (decide (filepath f = fp)).
Qed.

Lemma diagsOf_absent (fp : string) (l : list (FileDiagnostic (Diagnostic := Diagnostic))) :
  fp ∉ (filepath <$> l) -> Text.diagsOf fp l = [].
Proof.
  intros Hnot. unfold Text.diagsOf. induction l as [|f l IH]; [reflexivity |].
  rewrite fmap_cons in Hnot. apply not_elem_of_cons in Hnot as [Hne Hnot].
  rewrite filter_cons, decide_False by congruence. now apply IH.
Qed.

(** The map that [reduce] builds. *)
Lemma by_file_closed (fdiags : list (FileDiagnostic (Diagnostic := Diagnostic))) :
  foldl by_file_step [] fdiags =
  (fun fp => (fp, Text.diagsOf fp fdiags)) <$> Text.firsts (filepath <$> fdiags).
Proof.
  induction fdiags as [|f l IH] using rev_ind; [reflexivity |].
  rewrite foldl_app, fmap_app. cbn [foldl fmap list_fmap]. rewrite IH, firsts_snoc.
  destruct (firsts_spec (filepath <$> l)) as [Hnd Hin].
  unfold by_file_step.
  destruct (decide (filepath f ∈ Text.firsts (filepath <$> l))) as [Hf | Hf].
  - destruct (map_present (fun fp => Text.diagsOf fp l) _ _
                (Text.diagsOf (filepath f) l ++ [diag f]) Hf Hnd) as (Hhas & Hget & Hset).
    rewrite Hhas. simpl negb. cbv iota. rewrite Hget, Hset.
    apply list_fmap_ext. intros i fp _. f_equal. rewrite diagsOf_snoc.
    destruct (decide (fp = filepath f)) as [-> | Hne].
    + now rewrite decide_True.
    + rewrite decide_False by congruence. now rewrite app_nil_r.
  - assert (Hkeys : filepath f ∉
              (fst <$> ((fun fp => (fp, Text.diagsOf fp l)) <$> Text.firsts (filepath <$> l)))).
    { rewrite <- list_fmap_compose. simpl. now rewrite list_fmap_id. }
    destruct (map_absent _ _ [] ([] ++ [diag f]) Hkeys) as (_ & _ & _ & _ & Hset2).
    destruct (map_absent _ _ [] ([] : list Diagnostic) Hkeys)
      as (Hhas & _ & Hset & Hget & _).
    rewrite Hhas. simpl negb. cbv iota. rewrite Hset, Hget, Hset2, fmap_app. f_equal.
    + apply list_fmap_ext. intros i fp Hlook. f_equal. rewrite diagsOf_snoc.
      rewrite decide_False; [now rewrite app_nil_r |].
      intros Heq. apply Hf. rewrite Heq. apply list_elem_of_lookup. eauto.
    + simpl. rewrite diagsOf_snoc, decide_True by reflexivity.
      rewrite diagsOf_absent; [reflexivity |]. intros Hin'. apply Hf. now apply Hin.
Qed.

(** [populateCollection] clears the collection and then sets, for each file
    that has diagnostics, once and in the order in which the files first
    occur, the diagnostics of that file in their order; a file without
    diagnostics is not set. *)
Theorem populate_groups_by_file (fdiags : list (FileDiagnostic (Diagnostic := Diagnostic))) :
  populateCollection Uri_file fdiags =
  Clear :: ((fun fp => Set_ (Uri_file fp) (Text.diagsOf fp fdiags))
              <$> Text.firsts (filepath <$> fdiags)) /\
  NoDup (Text.firsts (filepath <$> fdiags)) /\
  (forall fp, fp ∈ Text.firsts (filepath <$> fdiags) <-> fp ∈ (filepath <$> fdiags)).
Proof.
  split; [| apply firsts_spec].
  unfold populateCollection. rewrite by_file_closed, <- list_fmap_compose. reflexivity.
Qed.

End PopulateFacts.

End DiagnosticsFacts.
